(** * Population store, seeder, growth simulator and renderer

    A shallow embedding of [Chris_McCathern_Programming13.py]:

    - the [population] table of the SQLite store, as the list of its rows in
      rowid order, with the two insert policies the program uses
      ([INSERT OR IGNORE] and [INSERT OR REPLACE]) and its three queries;
    - Python's [float] as IEEE 754 binary64, through the executable
      specification of [SpecFloat] (round to nearest, ties to even);
    - the global generator of the [random] module as an explicit state
      threaded through the simulation;
    - text as its UTF-8 bytes, and [str.strip()] over all the white space
      of [str.isspace];
    - [show_city_plot] as the trace of its prints, prompt and plot;
    - [main] and the module run as a script, over the database files by
      name, with the exception that ends them. *)

From Stdlib Require Import ZArith List String Ascii Bool Lia Sorted Permutation.
From Stdlib Require Import SpecFloat.
Import ListNotations.

Local Open Scope string_scope.
Local Open Scope list_scope.
Local Open Scope Z_scope.

(** ** Exceptions *)

Inductive exn := OverflowError | ValueError.

Inductive Result (A : Type) :=
| Ok (a : A)
| Raise (e : exn).
Arguments Ok {A} a.
Arguments Raise {A} e.

Definition bind {A B} (m : Result A) (k : A -> Result B) : Result B :=
  match m with
  | Ok a => k a
  | Raise e => Raise e
  end.

Notation "x <- m ;; k" := (bind m (fun x => k))
  (at level 61, m at next level, right associativity).

(** ** Python floats *)

Module PyFloat.

Definition prec : Z := 53.
Definition emax : Z := 1024.

Definition float := spec_float.

Definition add : float -> float -> float := SFadd prec emax.
Definition sub : float -> float -> float := SFsub prec emax.
Definition mul : float -> float -> float := SFmul prec emax.
Definition div : float -> float -> float := SFdiv prec emax.

(** [float(n)] for a Python int: correctly rounded, [OverflowError] when
    the int is beyond the largest float. *)
Definition of_int (n : Z) : Result float :=
  match binary_normalize prec emax n 0 false with
  | S754_infinity _ => Raise OverflowError
  | x => Ok x
  end.

Definition one : float := S754_finite false 4503599627370496 (-52).
Definition zero : float := S754_zero false.

Definition is_finite (x : float) : bool :=
  match x with
  | S754_zero _ | S754_finite _ _ _ => true
  | _ => false
  end.

(** The integer nearest to [m * 2^e], ties to the even one. *)
Definition round_half_even (m e : Z) : Z :=
  if 0 <=? e then m * 2 ^ e
  else
    let d := 2 ^ (- e) in
    let q := m / d in
    match (2 * (m mod d)) ?= d with
    | Lt => q
    | Gt => q + 1
    | Eq => if Z.even q then q else q + 1
    end.

(** [round(x)] with one argument: an int, [ValueError] on a NaN and
    [OverflowError] on an infinity. *)
Definition round (x : float) : Result Z :=
  match x with
  | S754_nan => Raise ValueError
  | S754_infinity _ => Raise OverflowError
  | S754_zero _ => Ok 0
  | S754_finite s m e => Ok (cond_Zopp s (round_half_even (Zpos m) e))
  end.

(** [0.0 <= u < 1.0], for a float in canonical form. *)
Definition unit_interval (u : float) : bool :=
  valid_binary prec emax u && SFleb zero u && SFltb u one.

End PyFloat.

Import PyFloat.

(** [int * float]: the int is converted first. *)
Definition int_mul_float (n : Z) (x : float) : Result float :=
  fn <- of_int n ;; Ok (mul fn x).

(** [int + float] *)
Definition int_add_float (n : Z) (x : float) : Result float :=
  fn <- of_int n ;; Ok (add fn x).

(** [random.uniform(a, b)] is [a + (b - a) * self.random()]; [u] is the draw
    of [random()]. *)
Definition uniform (a b u : float) : float :=
  add a (mul (sub b a) u).

(** [max(1, int(round(population * (1 + growth_rate))))] *)
Definition grow (population : Z) (growth_rate : float) : Result Z :=
  factor <- int_add_float 1 growth_rate ;;
  x <- int_mul_float population factor ;;
  n <- round x ;;
  Ok (Z.max 1 n).

(** ** The store: the [population] table

    A row is [(city, year, population)] and [(city, year)] is the primary
    key.  The table is the list of its rows in rowid order, which is the
    order a scan without [ORDER BY] returns them in: a new row goes to the
    end, and [INSERT OR REPLACE] deletes the row it conflicts with before it
    adds the new one. *)

Record row := Row { city : string; year : Z; population : Z }.

Definition store := list row.

Definition same_key (c : string) (y : Z) (r : row) : bool :=
  String.eqb (city r) c && (year r =? y).

Definition has_key (s : store) (c : string) (y : Z) : bool :=
  existsb (same_key c y) s.

(** [INSERT OR IGNORE INTO population VALUES (c, y, p)] *)
Definition insert_or_ignore (s : store) (c : string) (y p : Z) : store :=
  if has_key s c y then s else s ++ [Row c y p].

(** [INSERT OR REPLACE INTO population VALUES (c, y, p)] *)
Definition insert_or_replace (s : store) (c : string) (y p : Z) : store :=
  filter (fun r => negb (same_key c y r)) s ++ [Row c y p].

(** A Python int bound to a statement parameter has to fit SQLite's signed
    64-bit INTEGER; the binding raises [OverflowError] otherwise. *)
Definition bind_int64 (n : Z) : Result Z :=
  if (- 2 ^ 63 <=? n) && (n <? 2 ^ 63) then Ok n else Raise OverflowError.

(** [SELECT city, population FROM population WHERE year = 2023] *)
Definition select_2023 (s : store) : list (string * Z) :=
  map (fun r => (city r, population r)) (filter (fun r => year r =? 2023) s).

Section Sorting.
Context {A : Type} (le : A -> A -> bool).

Fixpoint insert_sorted (x : A) (l : list A) : list A :=
  match l with
  | [] => [x]
  | y :: l' => if le x y then x :: l else y :: insert_sorted x l'
  end.

Definition sort (l : list A) : list A :=
  fold_right insert_sorted [] l.
End Sorting.

Fixpoint dedup (l : list string) : list string :=
  match l with
  | [] => []
  | x :: l' => if existsb (String.eqb x) l' then dedup l' else x :: dedup l'
  end.

(** [SELECT DISTINCT city FROM population ORDER BY city] *)
Definition select_cities (s : store) : list string :=
  sort String.leb (dedup (map city s)).

(** [SELECT year, population FROM population WHERE city = ? ORDER BY year] *)
Definition select_series (s : store) (c : string) : list (Z * Z) :=
  sort (fun a b => fst a <=? fst b)
       (map (fun r => (year r, population r))
            (filter (fun r => String.eqb (city r) c) s)).

(** ** The seeder *)

Definition cities : list (string * Z) :=
  [ ("Jacksonville", 985000);
    ("Miami", 451000);
    ("Tampa", 398000);
    ("Orlando", 317000);
    ("St. Petersburg", 261000);
    ("Hialeah", 220000);
    ("Tallahassee", 202000);
    ("Port St. Lucie", 241000);
    ("Cape Coral", 216000);
    ("Fort Lauderdale", 184000) ].

Definition insert_2023_data (conn : store) : store :=
  fold_left (fun s cp => insert_or_ignore s (fst cp) 2023 (snd cp)) cities conn.

(** ** The simulator *)

(** [range(start, start + n)] *)
Definition range (start n : Z) : list Z :=
  map (fun i => start + Z.of_nat i) (seq 0 (Z.to_nat n)).

(** The default rates, [-0.01] and [0.03], as the floats nearest to them. *)
Definition decimal (n d : Z) : float :=
  div (binary_normalize prec emax n 0 false) (binary_normalize prec emax d 0 false).

Definition default_rate_min : float := SFopp (decimal 1 100).
Definition default_rate_max : float := decimal 3 100.

Section Simulator.

(** The generator of the [random] module: [seed] is [random.seed] on an
    int and [random] is [random.random], which returns a float of
    [[0.0, 1.0)] and the generator's next state. *)
Variable rng : Type.
Variable seed : Z -> rng.
Variable random : rng -> float * rng.

Variable rate_min rate_max : float.

(** The body of the loop over the years of one city. *)
Fixpoint simulate_city (c : string) (years : list Z) (population : Z)
         (g : rng) (s : store) : Result (rng * store) :=
  match years with
  | [] => Ok (g, s)
  | y :: years' =>
      let (u, g') := random g in
      let growth_rate := uniform rate_min rate_max u in
      population' <- grow population growth_rate ;;
      y' <- bind_int64 y ;;
      p' <- bind_int64 population' ;;
      simulate_city c years' population' g' (insert_or_replace s c y' p')
  end.

(** The loop over the fetched rows. *)
Fixpoint simulate_rows (rows : list (string * Z)) (years : list Z)
         (g : rng) (s : store) : Result (rng * store) :=
  match rows with
  | [] => Ok (g, s)
  | (c, pop) :: rows' =>
      gs <- simulate_city c years pop g s ;;
      simulate_rows rows' years (fst gs) (snd gs)
  end.

Definition simulate_growth (conn : store) (start_year years rng_seed : Z)
  : Result store :=
  let rows := select_2023 conn in
  let g := seed rng_seed in
  gs <- simulate_rows rows (range start_year years) g conn ;;
  Ok (snd gs).

End Simulator.

(** ** The renderer *)

(** Text is held as its UTF-8 bytes, which is how SQLite stores and compares
    [TEXT] and what [String.eqb] decides.  The characters [str.strip()]
    removes are those of [str.isspace]: U+0009-U+000D, U+001C-U+0020, U+0085,
    U+00A0, U+1680, U+2000-U+200A, U+2028, U+2029, U+202F, U+205F and U+3000.
    The first two ranges are one byte each, U+0085 and U+00A0 are two
    ([C2 85], [C2 A0]), the others three ([E1 9A 80]; [E2 80 80] to
    [E2 80 8A]; [E2 80 A8]; [E2 80 A9]; [E2 80 AF]; [E2 81 9F];
    [E3 80 80]). *)
Definition is_space (c : ascii) : bool :=
  let n := N_of_ascii c in
  ((9 <=? n) && (n <=? 13) || (28 <=? n) && (n <=? 32))%N.

Definition is_space2 (b1 b2 : ascii) : bool :=
  let n1 := N_of_ascii b1 in
  let n2 := N_of_ascii b2 in
  ((n1 =? 194) && ((n2 =? 133) || (n2 =? 160)))%N.

Definition is_space3 (b1 b2 b3 : ascii) : bool :=
  let n1 := N_of_ascii b1 in
  let n2 := N_of_ascii b2 in
  let n3 := N_of_ascii b3 in
  ((n1 =? 225) && (n2 =? 154) && (n3 =? 128)
   || (n1 =? 226) && (n2 =? 128)
      && ((128 <=? n3) && (n3 <=? 138) || (n3 =? 168) || (n3 =? 169)
          || (n3 =? 175))
   || (n1 =? 226) && (n2 =? 129) && (n3 =? 159)
   || (n1 =? 227) && (n2 =? 128) && (n3 =? 128))%N.

(** The white space at the front of [s] removed.  With [backwards] the
    bytes of [s] are those of a text read from its end, so a character of
    several bytes shows its last byte first. *)
Fixpoint lstrip (backwards : bool) (s : string) : string :=
  match s with
  | String c1 s1 =>
      if is_space c1 then lstrip backwards s1
      else
        match s1 with
        | String c2 s2 =>
            if (if backwards then is_space2 c2 c1 else is_space2 c1 c2)
            then lstrip backwards s2
            else
              match s2 with
              | String c3 s3 =>
                  if (if backwards then is_space3 c3 c2 c1
                      else is_space3 c1 c2 c3)
                  then lstrip backwards s3
                  else s
              | EmptyString => s
              end
        | EmptyString => s
        end
  | EmptyString => EmptyString
  end.

Definition reverse (s : string) : string :=
  string_of_list_ascii (rev (list_ascii_of_string s)).

(** [str.strip()]: the white space of both ends removed. *)
Definition strip (s : string) : string :=
  reverse (lstrip true (reverse (lstrip false s))).

Inductive event :=
| Print (text : string)
| Input (prompt : string)
| Plot (title : string) (years pops : list Z).

Definition newline : string := String (ascii_of_N 10) EmptyString.

(** [line] is what [input] returns if the prompt is reached.  The function
    only queries the store; the store it leaves and the trace of its
    prints, prompt and plot are its result. *)
Definition show_city_plot (conn : store) (line : string) : store * list event :=
  let cities := select_cities conn in
  match cities with
  | [] => (conn, [Print "No cities found. Did you insert the 2023 data?"])
  | first :: _ =>
      let listing := map (fun c => Print (String.append "- " c)) cities in
      let choice := strip line in
      let invalid := negb (existsb (String.eqb choice) cities) in
      let choice := if invalid then first else choice in
      let data := select_series conn choice in
      (conn,
       [Print (String.append newline "Available cities:")] ++ listing
       ++ [Input (String.append newline "Type a city name exactly as shown: ")]
       ++ (if invalid then [Print "Invalid city — showing first city instead."] else [])
       ++ [Plot (String.append "Population Growth for " choice)
                (map fst data) (map snd data)])
  end.

(** * Definitions for the statements *)

(** ** Writes and keys *)

Definition write (s : store) (w : row) : store :=
  insert_or_replace s (city w) (year w) (population w).

(** The writes of a run, applied in order. *)
Definition apply_writes (ws : list row) (s : store) : store :=
  fold_left write ws s.

Definition key (r : row) : string * Z := (city r, year r).

(** [overwritten ws r]: some row of [ws] has the key of [r]. *)
Definition overwritten (ws : list row) (r : row) : bool :=
  existsb (same_key (city r) (year r)) ws.

(** The keys a run writes: every fetched city, in the order fetched, at
    every year of the range in ascending order. *)
Definition written_keys (rows : list (string * Z)) (years : list Z)
  : list (string * Z) :=
  flat_map (fun cp => map (fun y => (fst cp, y)) years) rows.

Definition shift_year (d : Z) (r : row) : row :=
  Row (city r) (year r + d) (population r).

Definition seed_rows (l : list (string * Z)) (conn : store) : store :=
  fold_left (fun s cp => insert_or_ignore s (fst cp) 2023 (snd cp)) l conn.

(** The rows the seeder writes into a store that holds none of them. *)
Definition seeded_row (cp : string * Z) : row := Row (fst cp) 2023 (snd cp).

Definition city_rows (c : string) (l : list (Z * Z)) : list row :=
  map (fun yp => Row c (fst yp) (snd yp)) l.

(** ** The walk of a run, without the store *)

Section Walks.

Variable rng : Type.
Variable random : rng -> float * rng.
Variable rate_min rate_max : float.

(** The values one city's loop writes, year by year, and the generator it
    leaves behind. *)
Fixpoint city_walk (years : list Z) (population : Z) (g : rng)
  : Result (rng * list (Z * Z)) :=
  match years with
  | [] => Ok (g, [])
  | y :: years' =>
      let (u, g') := random g in
      population' <- grow population (uniform rate_min rate_max u) ;;
      y' <- bind_int64 y ;;
      p' <- bind_int64 population' ;;
      gw <- city_walk years' population' g' ;;
      Ok (fst gw, (y', p') :: snd gw)
  end.

(** The rows a whole run writes, in the order it writes them. *)
Fixpoint rows_walk (rows : list (string * Z)) (years : list Z) (g : rng)
  : Result (rng * list row) :=
  match rows with
  | [] => Ok (g, [])
  | (c, pop) :: rows' =>
      gw <- city_walk years pop g ;;
      gw' <- rows_walk rows' years (fst gw) ;;
      Ok (fst gw', city_rows c (snd gw) ++ snd gw')
  end.



End Walks.

(** ** Magnitudes of floats *)

Definition exact (mrs : shr_record) : Prop :=
  shr_r mrs = false /\ shr_s mrs = false.

(** [|x| <= 2^k] *)
Definition mag_le (x : float) (k : Z) : Prop :=
  match x with
  | S754_zero _ => True
  | S754_finite _ m e => e <= k /\ Zpos m <= 2 ^ (k - e)
  | _ => False
  end.

(** Rate bounds within a half of zero and of each other. *)
Definition small_rates (rate_min rate_max : float) : Prop :=
  mag_le rate_min (-1) /\ mag_le (sub rate_max rate_min) (-1).

(** A generator for examples: it cycles through four draws. *)
Module Cycle.
Definition draws : list float :=
  [ S754_zero false;
    S754_finite false 4503599627370496 (-54);
    S754_finite false 4503599627370496 (-53);
    S754_finite false 6755399441055744 (-53) ].

Definition seed (a : Z) : nat := Z.to_nat (Z.abs a).

Definition random (g : nat) : float * nat :=
  (nth (g mod 4) draws zero, S g).

End Cycle.

(** ** The program: database files and [main] *)

(** The database files, by name: the committed [population] table of each
    file that exists. *)
Definition files := string -> option store.

(** [conn.commit()] on the connection to the file [name]. *)
Definition commit (fs : files) (name : string) (conn : store) : files :=
  fun n => if String.eqb n name then Some conn else fs n.

(** [f"population_{initials}.db"] *)
Definition db_name (initials : string) : string :=
  String.append "population_" (String.append initials ".db").

(** What ends the program: an exception of the simulator, the
    [sqlite3.OperationalError] of a database file that cannot be opened, or
    the [NameError] of the name that stands alone on the last line of the
    module. *)
Inductive program_error :=
| Simulation (e : exn)
| OperationalError
| NameError.

(** [create_database].  [connects name] says whether [sqlite3.connect]
    opens or creates the file [name] and the table can be made in it; that
    is for the directory and the file system to decide (a name such as
    [population_a/b.db] lies in a directory that need not exist).  If not,
    the call raises [OperationalError], here [None], and no file is made.
    Otherwise the file is created when it does not exist, and
    [CREATE TABLE IF NOT EXISTS] keeps the table of a file that does.  The
    result is the files, the name of the database and the table the
    connection sees. *)
Definition create_database (connects : string -> bool) (fs : files)
  (initials : string) : option (files * string * store) :=
  let db_name := db_name initials in
  if connects db_name then
    match fs db_name with
    | Some conn => Some (fs, db_name, conn)
    | None => Some (commit fs db_name [], db_name, [])
    end
  else None.

(** The text with the given UTF-8 bytes. *)
Definition utf8 (bytes : list N) : string :=
  string_of_list_ascii (map ascii_of_N bytes).

(** [input(...).strip() or "CM"] *)
Definition initials_or_default (line : string) : string :=
  let typed := strip line in
  if String.eqb typed "" then "CM" else typed.

Definition is_plot (e : event) : bool :=
  match e with
  | Plot _ _ _ => true
  | _ => false
  end.

Section Program.

Variable rng : Type.
Variable seed : Z -> rng.
Variable random : rng -> float * rng.
Variable connects : string -> bool.

(** [main]: [initials_line] and [choice_line] are the two lines read, the
    second one only if the prompt for it is reached.  The result is the files as committed, the trace of prompts, prints and plot,
    and the exception that ended the call, if one did: a database that
    cannot be opened ends it before anything is written, the seeder commits
    before the simulator runs, and the writes of a simulation that raises are
    never committed. *)
Definition main (fs : files) (initials_line choice_line : string)
  : files * list event * option program_error :=
  let initials := initials_or_default initials_line in
  match create_database connects fs initials with
  | None =>
      (fs, [Input "Enter your initials (e.g., WCM): "], Some OperationalError)
  | Some (fs, name, conn) =>
      let conn := insert_2023_data conn in
      let fs := commit fs name conn in
      match
        simulate_growth rng seed random default_rate_min default_rate_max
          conn 2024 20 42
      with
      | Raise e =>
          (fs, [Input "Enter your initials (e.g., WCM): "],
           Some (Simulation e))
      | Ok conn =>
          let fs := commit fs name conn in
          let '(_, trace) := show_city_plot conn choice_line in
          (fs, Input "Enter your initials (e.g., WCM): " :: trace, None)
      end
  end.

(** The module run as a script: [main()] is called, and when it has
    returned the name on the last line is looked up, which raises
    [NameError]. *)
Definition script (fs : files) (initials_line choice_line : string)
  : files * list event * option program_error :=
  let '(fs, trace, raised) := main fs initials_line choice_line in
  (fs, trace,
   match raised with
   | Some e => Some e
   | None => Some NameError
   end).

End Program.

(** * Properties *)

(** ** The store *)

Lemma same_key_iff c y r : same_key c y r = true <-> key r = (c, y).
Proof.
  unfold same_key, key. rewrite andb_true_iff, String.eqb_eq, Z.eqb_eq.
  split; [intros [-> ->]; reflexivity | intros [= -> ->]; auto].
Qed.

Lemma same_key_sym r w :
  same_key (city r) (year r) w = same_key (city w) (year w) r.
Proof.
  unfold same_key. rewrite (String.eqb_sym (city w)), (Z.eqb_sym (year w)).
  reflexivity.
Qed.

Lemma same_key_refl r : same_key (city r) (year r) r = true.
Proof. apply same_key_iff. reflexivity. Qed.

Lemma overwritten_iff ws r :
  overwritten ws r = true <-> In (key r) (map key ws).
Proof.
  unfold overwritten. rewrite existsb_exists, in_map_iff. split.
  - intros (w & Hw & Hk). exists w. split; [| assumption].
    apply same_key_iff in Hk. assumption.
  - intros (w & Hk & Hw). exists w. split; [assumption |].
    apply same_key_iff. assumption.
Qed.

Lemma write_row_eta s w : write s w = filter (fun r => negb (same_key (city w) (year w) r)) s ++ [w].
Proof. destruct w. reflexivity. Qed.

(** Writes under pairwise distinct keys land after the rows they do not
    overwrite, in the order they were made. *)
Lemma apply_writes_nodup ws : forall s,
  NoDup (map key ws) ->
  apply_writes ws s = filter (fun r => negb (overwritten ws r)) s ++ ws.
Proof.
  induction ws as [| w ws IH]; intros s Hnd.
  - simpl. rewrite app_nil_r. symmetry. apply forallb_filter_id.
    apply forallb_forall. reflexivity.
  - inversion Hnd as [| k ks Hnotin Hnd']; subst.
    change (apply_writes (w :: ws) s) with (apply_writes ws (write s w)).
    rewrite IH by assumption. rewrite write_row_eta, filter_app.
    assert (Hw : overwritten ws w = false).
    { destruct (overwritten ws w) eqn:E; [| reflexivity].
      apply overwritten_iff in E. contradiction. }
    assert (Hf : filter (fun r => negb (overwritten ws r)) [w] = [w]).
    { cbn [filter]. rewrite Hw. reflexivity. }
    rewrite Hf, <- app_assoc. cbn [app]. f_equal.
    clear. induction s as [| r s IHs]; [reflexivity |].
    simpl. rewrite (same_key_sym r w).
    destruct (same_key (city w) (year w) r); simpl.
    + apply IHs.
    + destruct (overwritten ws r); simpl; [apply IHs | f_equal; apply IHs].
Qed.

Lemma has_key_app s1 s2 c y :
  has_key (s1 ++ s2) c y = has_key s1 c y || has_key s2 c y.
Proof. apply existsb_app. Qed.

Lemma has_key_insert_or_ignore s c y p c' y' :
  has_key (insert_or_ignore s c y p) c' y' =
  has_key s c' y' || same_key c' y' (Row c y p).
Proof.
  unfold insert_or_ignore. destruct (has_key s c y) eqn:E.
  - destruct (same_key c' y' (Row c y p)) eqn:K.
    + apply same_key_iff in K. injection K as <- <-.
      rewrite E. reflexivity.
    + rewrite orb_false_r. reflexivity.
  - rewrite has_key_app. simpl. rewrite orb_false_r. reflexivity.
Qed.

(** ** The simulator: what a run writes *)

Lemma bind_int64_ok n m : bind_int64 n = Ok m -> m = n /\ - 2 ^ 63 <= n < 2 ^ 63.
Proof.
  unfold bind_int64.
  destruct (- 2 ^ 63 <=? n) eqn:E1; destruct (n <? 2 ^ 63) eqn:E2;
    simpl; intros [=]; subst. split; [reflexivity | lia].
Qed.

Lemma bind_int64_in_range n : - 2 ^ 63 <= n < 2 ^ 63 -> bind_int64 n = Ok n.
Proof.
  intros H. unfold bind_int64.
  replace (- 2 ^ 63 <=? n) with true by (symmetry; apply Z.leb_le; lia).
  replace (n <? 2 ^ 63) with true by (symmetry; apply Z.ltb_lt; lia).
  reflexivity.
Qed.

Lemma grow_ge_1 p r v : grow p r = Ok v -> 1 <= v.
Proof.
  unfold grow, int_add_float, int_mul_float.
  destruct (of_int 1); simpl; [| discriminate].
  destruct (of_int p); simpl; [| discriminate].
  destruct (round _); simpl; [| discriminate].
  intros [= <-]. lia.
Qed.

Section Walk.

Variable rng : Type.
Variable seed : Z -> rng.
Variable random : rng -> float * rng.
Variable rate_min rate_max : float.

Lemma simulate_city_walk c : forall years p g s,
  simulate_city rng random rate_min rate_max c years p g s =
  (gw <- city_walk rng random rate_min rate_max years p g ;;
   Ok (fst gw, apply_writes (city_rows c (snd gw)) s)).
Proof.
  induction years as [| y years IH]; intros p g s; [reflexivity |].
  cbn [simulate_city city_walk]. destruct (random g) as [u g'].
  destruct (grow p _) as [p' |]; [| reflexivity]. cbn [bind].
  destruct (bind_int64 y) as [y' |]; [| reflexivity]. cbn [bind].
  destruct (bind_int64 p') as [q |]; [| reflexivity]. cbn [bind].
  rewrite IH. destruct (city_walk rng random rate_min rate_max years p' g') as [[g'' l] |]; reflexivity.
Qed.

Lemma apply_writes_app ws1 ws2 s :
  apply_writes (ws1 ++ ws2) s = apply_writes ws2 (apply_writes ws1 s).
Proof. apply fold_left_app. Qed.

Lemma simulate_rows_walk years : forall rows g s,
  simulate_rows rng random rate_min rate_max rows years g s =
  (gw <- rows_walk rng random rate_min rate_max rows years g ;; Ok (fst gw, apply_writes (snd gw) s)).
Proof.
  induction rows as [| [c pop] rows IH]; intros g s; [reflexivity |].
  cbn [simulate_rows rows_walk]. rewrite simulate_city_walk.
  destruct (city_walk rng random rate_min rate_max years pop g) as [[g' l] |]; [| reflexivity].
  cbn [bind fst snd]. rewrite IH.
  destruct (rows_walk rng random rate_min rate_max rows years g') as [[g'' ws] |]; [| reflexivity].
  cbn [bind fst snd]. rewrite apply_writes_app. reflexivity.
Qed.

(** A run is its walk over the rows of 2023, then its writes. *)
Lemma simulate_growth_walk conn start_year years rng_seed :
  simulate_growth rng seed random rate_min rate_max conn start_year years rng_seed =
  (gw <- rows_walk rng random rate_min rate_max (select_2023 conn) (range start_year years) (seed rng_seed) ;;
   Ok (apply_writes (snd gw) conn)).
Proof.
  unfold simulate_growth. rewrite simulate_rows_walk.
  destruct (rows_walk rng random rate_min rate_max _ _ _) as [[g ws] |]; reflexivity.
Qed.

Lemma city_walk_ok : forall years p g g' l,
  city_walk rng random rate_min rate_max years p g = Ok (g', l) ->
  map fst l = years /\ Forall (fun yp => 1 <= snd yp < 2 ^ 63) l.
Proof.
  induction years as [| y years IH]; intros p g g' l.
  - intros [= <- <-]. split; constructor.
  - cbn [city_walk]. destruct (random g) as [u g1].
    destruct (grow p _) as [p' |] eqn:Hg; [| discriminate]. cbn [bind].
    destruct (bind_int64 y) as [y' |] eqn:Hy; [| discriminate]. cbn [bind].
    destruct (bind_int64 p') as [q |] eqn:Hq; [| discriminate]. cbn [bind].
    destruct (city_walk rng random rate_min rate_max years p' g1) as [[g2 l'] |] eqn:Hw; [| discriminate].
    cbn [bind fst snd]. intros [= <- <-].
    apply IH in Hw. destruct Hw as [Hys Hall].
    apply bind_int64_ok in Hy, Hq. destruct Hy as [-> _], Hq as [-> Hr].
    apply grow_ge_1 in Hg.
    split; [cbn; f_equal; assumption |].
    constructor; [cbn; lia | assumption].
Qed.

Lemma rows_walk_ok years : forall rows g g' ws,
  rows_walk rng random rate_min rate_max rows years g = Ok (g', ws) ->
  map key ws = written_keys rows years /\
  Forall (fun r => 1 <= population r < 2 ^ 63) ws.
Proof.
  induction rows as [| [c pop] rows IH]; intros g g' ws.
  - intros [= <- <-]. split; constructor.
  - cbn [rows_walk].
    destruct (city_walk rng random rate_min rate_max years pop g) as [[g1 l] |] eqn:Hc; [| discriminate].
    cbn [bind fst snd].
    destruct (rows_walk rng random rate_min rate_max rows years g1) as [[g2 ws'] |] eqn:Hr; [| discriminate].
    cbn [bind fst snd]. intros [= <- <-].
    apply city_walk_ok in Hc. destruct Hc as [Hys Hall].
    apply IH in Hr. destruct Hr as [Hk Hall'].
    split.
    + rewrite map_app, Hk. cbn [written_keys flat_map fst]. f_equal.
      unfold city_rows. rewrite map_map. cbn [key city year].
      rewrite <- Hys, map_map. reflexivity.
    + apply Forall_app. split; [| assumption].
      unfold city_rows. rewrite Forall_map. cbn [population]. assumption.
Qed.

End Walk.

Lemma in_write r s w :
  In r (write s w) <-> r = w \/ (In r s /\ same_key (city w) (year w) r = false).
Proof.
  rewrite write_row_eta, in_app_iff, filter_In, negb_true_iff. cbn [In].
  intuition.
Qed.

(** A row of the store after some writes is one of the writes, or a row that
    was there and that no write overwrote. *)
Lemma in_apply_writes r : forall ws s,
  In r (apply_writes ws s) ->
  In r ws \/ (In r s /\ overwritten ws r = false).
Proof.
  induction ws as [| w ws IH]; intros s H.
  - right. split; [assumption | reflexivity].
  - change (apply_writes (w :: ws) s) with (apply_writes ws (write s w)) in H.
    apply IH in H. destruct H as [H | [H Hw]].
    + left. right. assumption.
    + apply in_write in H. destruct H as [-> | [H Hk]].
      * left. left. reflexivity.
      * right. split; [assumption |].
        cbn [overwritten existsb]. fold (overwritten ws r).
        rewrite same_key_sym, Hk, Hw. reflexivity.
Qed.

Lemma cycle_random_unit g : unit_interval (fst (Cycle.random g)) = true.
Proof.
  unfold Cycle.random, Cycle.draws. cbn [fst].
  assert (H : (g mod 4 < 4)%nat) by (apply Nat.mod_upper_bound; discriminate).
  destruct (g mod 4)%nat as [| [| [| [| k]]]]; try reflexivity. lia.
Qed.

(** C2. Every row the simulator writes holds a value of at least 1: after a
    run, a row of the store at a simulated key (a city of the 2023 rows at a
    year of the range) has population >= 1, whatever the base value, the
    rates and the draws. *)
Theorem simulated_value_at_least_1 :
  forall (rng : Type) (seed : Z -> rng) (random : rng -> float * rng)
         (rate_min rate_max : float) (conn conn' : store)
         (start_year years rng_seed : Z) (r : row),
    simulate_growth rng seed random rate_min rate_max conn start_year years rng_seed
      = Ok conn' ->
    In r conn' ->
    In (key r) (written_keys (select_2023 conn) (range start_year years)) ->
    1 <= population r.
Proof.
  intros rng seed random rate_min rate_max conn conn' sy n sd r Hrun Hin Hkey.
  rewrite simulate_growth_walk in Hrun.
  destruct (rows_walk _ _ _ _ _ _ _) as [[g ws] |] eqn:Hw; [| discriminate].
  cbn [bind snd] in Hrun. injection Hrun as <-.
  apply rows_walk_ok in Hw. destruct Hw as [Hk Hall].
  apply in_apply_writes in Hin. destruct Hin as [Hin | [_ Hno]].
  - rewrite Forall_forall in Hall. apply Hall in Hin. lia.
  - rewrite <- Hk in Hkey. apply overwritten_iff in Hkey. congruence.
Qed.

Lemma simulated_value_at_least_1_witness :
  1 <= population (Row "Miami" 2024 1).
Proof.
  eapply (simulated_value_at_least_1 nat Cycle.seed Cycle.random
            default_rate_min default_rate_max
            [Row "Miami" 2023 0] _ 2024 1 42).
  - vm_compute. reflexivity.
  - right. left. reflexivity.
  - left. reflexivity.
Defined.

(** ** Ranges and keys *)

Lemma range_length start n : List.length (range start n) = Z.to_nat n.
Proof. unfold range. rewrite length_map, length_seq. reflexivity. Qed.

Lemma in_range start n y : In y (range start n) <-> start <= y < start + n.
Proof.
  unfold range. rewrite in_map_iff. split.
  - intros (i & <- & Hi). apply in_seq in Hi. lia.
  - intros H. exists (Z.to_nat (y - start)). split; [lia |].
    apply in_seq. lia.
Qed.

Lemma NoDup_map_injective {A B} (f : A -> B) (l : list A) :
  (forall x y, f x = f y -> x = y) -> NoDup l -> NoDup (map f l).
Proof.
  intros Hinj Hnd. induction Hnd as [| x l Hx Hnd IH]; cbn; constructor.
  - rewrite in_map_iff. intros (y & E & Hy). apply Hinj in E. subst. contradiction.
  - assumption.
Qed.

Lemma range_NoDup start n : NoDup (range start n).
Proof.
  unfold range. apply NoDup_map_injective; [intros; lia | apply seq_NoDup].
Qed.

Lemma in_written_keys rows years c y :
  In (c, y) (written_keys rows years) <-> In c (map fst rows) /\ In y years.
Proof.
  unfold written_keys. rewrite in_flat_map, in_map_iff. split.
  - intros ([c' p] & Hin & Hy). apply in_map_iff in Hy.
    destruct Hy as (y' & [= <- <-] & Hy). split; [| assumption].
    exists (c', p). split; [reflexivity | assumption].
  - intros [([c' p] & <- & Hin) Hy]. exists (c', p). split; [assumption |].
    apply in_map_iff. exists y. split; [reflexivity | assumption].
Qed.

Lemma written_keys_NoDup rows years :
  NoDup (map fst rows) -> NoDup years -> NoDup (written_keys rows years).
Proof.
  intros Hr Hy. induction rows as [| [c p] rows IH]; [constructor |].
  cbn [map fst] in Hr. inversion Hr as [| c' l Hc Hr']; subst.
  change (written_keys ((c, p) :: rows) years)
    with (map (fun y => (c, y)) years ++ written_keys rows years).
  apply NoDup_app.
  - apply NoDup_map_injective; [intros x y [=]; assumption | assumption].
  - apply IH. assumption.
  - intros [c' y] Hin Hin'. apply in_map_iff in Hin.
    destruct Hin as (y' & [= <- <-] & _).
    apply in_written_keys in Hin'. destruct Hin' as [Hin' _]. contradiction.
Qed.

Lemma NoDup_key_eq (ws : list row) a b :
  NoDup (map key ws) -> In a ws -> In b ws -> key a = key b -> a = b.
Proof.
  induction ws as [| w ws IH]; intros Hnd Ha Hb Hk; [contradiction |].
  cbn [map] in Hnd. inversion Hnd as [| k l Hw Hnd']; subst.
  destruct Ha as [-> | Ha], Hb as [-> | Hb].
  - reflexivity.
  - exfalso. apply Hw. rewrite Hk. apply in_map. assumption.
  - exfalso. apply Hw. rewrite <- Hk. apply in_map. assumption.
  - apply IH; assumption.
Qed.

Section Run.

Variable rng : Type.
Variable seed : Z -> rng.
Variable random : rng -> float * rng.
Variable rate_min rate_max : float.

(** The store after a run over distinct cities: the rows no write
    overwrote, then the written rows in the order of the walk. *)
Lemma simulate_growth_store conn conn' start_year years rng_seed :
  NoDup (map fst (select_2023 conn)) ->
  simulate_growth rng seed random rate_min rate_max conn start_year years rng_seed
    = Ok conn' ->
  exists g ws,
    rows_walk rng random rate_min rate_max
      (select_2023 conn) (range start_year years) (seed rng_seed) = Ok (g, ws) /\
    map key ws = written_keys (select_2023 conn) (range start_year years) /\
    NoDup (map key ws) /\
    conn' = filter (fun r => negb (overwritten ws r)) conn ++ ws.
Proof.
  intros Hnd Hrun. rewrite simulate_growth_walk in Hrun.
  destruct (rows_walk _ _ _ _ _ _ _) as [[g ws] |] eqn:Hw; [| discriminate].
  cbn [bind snd] in Hrun. injection Hrun as <-.
  exists g, ws. pose proof (rows_walk_ok _ _ _ _ _ _ _ _ _ Hw) as [Hk _].
  assert (Hnd' : NoDup (map key ws)).
  { rewrite Hk. apply written_keys_NoDup; [assumption | apply range_NoDup]. }
  repeat split; try assumption.
  apply apply_writes_nodup. assumption.
Qed.

End Run.

(** ** A degenerate rate distribution *)

Lemma sub_diag_finite s m e :
  sub (S754_finite s m e) (S754_finite s m e) = S754_zero false.
Proof.
  unfold sub, SFsub. rewrite Z.sub_diag. reflexivity.
Qed.

Lemma unit_interval_finite u : unit_interval u = true -> is_finite u = true.
Proof.
  unfold unit_interval. intros H.
  apply andb_true_iff in H. destruct H as [H Hlt].
  apply andb_true_iff in H. destruct H as [_ Hle].
  destruct u as [s | s | | s m e]; try reflexivity.
  - destruct s; discriminate.
  - discriminate.
Qed.

(** [uniform(r, r)] is [r + 0.0 * u]: the draw does not matter. *)
Lemma uniform_degenerate r u :
  is_finite r = true -> is_finite u = true ->
  int_add_float 1 (uniform r r u) = int_add_float 1 r.
Proof.
  intros Hr Hu. unfold uniform.
  destruct r as [s | s | | s m e]; try discriminate.
  - destruct u as [s' | s' | | s' m' e']; try discriminate;
      destruct s, s'; reflexivity.
  - rewrite sub_diag_finite.
    destruct u as [s' | s' | | s' m' e']; try discriminate; reflexivity.
Qed.

Lemma grow_degenerate p r u :
  is_finite r = true -> is_finite u = true ->
  grow p (uniform r r u) = grow p r.
Proof.
  intros Hr Hu. unfold grow. rewrite uniform_degenerate by assumption.
  reflexivity.
Qed.

Section Degenerate.

Variable rng : Type.
Variable seed : Z -> rng.
Variable random : rng -> float * rng.
Hypothesis random_unit : forall g, unit_interval (fst (random g)) = true.

Variable r : float.
Hypothesis r_finite : is_finite r = true.

(** With the rate fixed at [r], a walk over one year writes [grow pop r]
    for every fetched city. *)
Lemma rows_walk_one_year (y : Z) : forall rows g,
  - 2 ^ 63 <= y < 2 ^ 63 ->
  (forall c p, In (c, p) rows -> exists v, grow p r = Ok v /\ v < 2 ^ 63) ->
  exists g' ws,
    rows_walk rng random r r rows [y] g = Ok (g', ws) /\
    Forall2 (fun cp w => city w = fst cp /\ year w = y /\
                         grow (snd cp) r = Ok (population w)) rows ws.
Proof.
  intros rows g Hy. revert g.
  induction rows as [| [c p] rows IH]; intros g Hall.
  - exists g, []. split; constructor.
  - destruct (Hall c p (or_introl eq_refl)) as (v & Hv & Hlt).
    destruct (IH (snd (random g))) as (g' & ws & Hw & Hf).
    { intros c' p' Hin. apply (Hall c' p'). right. assumption. }
    exists g', (Row c y v :: ws). split.
    + cbn [rows_walk city_walk]. pose proof (random_unit g) as Hu.
      destruct (random g) as [u g1]. cbn [fst snd] in *.
      rewrite grow_degenerate, Hv
        by (first [assumption | apply unit_interval_finite; assumption]).
      pose proof (grow_ge_1 _ _ _ Hv).
      cbn [bind]. rewrite !bind_int64_in_range by lia.
      cbn [bind fst snd]. rewrite Hw. reflexivity.
    + constructor; [| assumption]. cbn. auto.
Qed.

End Degenerate.

Lemma Forall2_in_l {A B} (R : A -> B -> Prop) l1 l2 a :
  Forall2 R l1 l2 -> In a l1 -> exists b, In b l2 /\ R a b.
Proof.
  induction 1 as [| x y l1 l2 Hxy _ IH]; intros Hin; [contradiction |].
  destruct Hin as [-> | Hin].
  - exists y. split; [left; reflexivity | assumption].
  - destruct (IH Hin) as (b & Hb & Hab). exists b. split; [right |]; assumption.
Qed.

(** A written row is in the store after the run, and it is the only row
    there with its key. *)
Lemma written_row_unique (conn : store) ws w :
  NoDup (map key ws) -> In w ws ->
  let conn' := filter (fun r => negb (overwritten ws r)) conn ++ ws in
  In w conn' /\ forall r', In r' conn' -> key r' = key w -> r' = w.
Proof.
  intros Hnd Hw conn'. split.
  - apply in_or_app. right. assumption.
  - intros r' Hr' Hk. apply in_app_or in Hr'. destruct Hr' as [Hr' | Hr'].
    + apply filter_In in Hr'. destruct Hr' as [_ Hno].
      apply negb_true_iff in Hno.
      assert (Hov : overwritten ws r' = true).
      { apply overwritten_iff. rewrite Hk. apply in_map. assumption. }
      congruence.
    + apply (NoDup_key_eq ws); assumption.
Qed.

(** The steps of [grow], one by one: [population] as a float, times the
    float [1 + growth_rate], rounded to an integer, and at least 1. *)
Lemma grow_steps (p : Z) (r V : float) (n : Z) :
  of_int p = Ok V ->
  PyFloat.round (mul V (add one r)) = Ok n ->
  grow p r = Ok (Z.max 1 n).
Proof.
  intros HV Hn. unfold grow, int_add_float, int_mul_float.
  change (of_int 1) with (Ok one). cbn [bind]. rewrite HV. cbn [bind].
  rewrite Hn. reflexivity.
Qed.

(** C3. With horizon 1 and the rate fixed at a finite [r]
    ([rate_min = rate_max = r]), the run writes, for every city [c] of the
    2023 rows with base value [p], exactly one row at [(c, start_year)], and
    its value is [max(1, round(p * (1 + r)))]: [1 + r] is the float sum of
    [1.0] and [r], [p * (1 + r)] the float product of [p] as a float and
    that sum, [round] rounds it to the nearest integer, halves to the even
    one, and the result is at least 1.  The hypotheses are those under which
    no statement of the run raises: the year fits SQLite's INTEGER, every
    base value has a float and the value of the formula fits SQLite's
    INTEGER. *)
Theorem compounding_one_year :
  forall (rng : Type) (seed : Z -> rng) (random : rng -> float * rng),
    (forall g, unit_interval (fst (random g)) = true) ->
  forall (r : float) (conn : store) (start_year rng_seed : Z),
    is_finite r = true ->
    NoDup (map fst (select_2023 conn)) ->
    - 2 ^ 63 <= start_year < 2 ^ 63 ->
    (forall c p, In (c, p) (select_2023 conn) ->
       exists (V : float) (n : Z),
         of_int p = Ok V /\
         PyFloat.round (mul V (add one r)) = Ok n /\
         Z.max 1 n < 2 ^ 63) ->
    exists conn',
      simulate_growth rng seed random r r conn start_year 1 rng_seed = Ok conn' /\
      forall c p, In (c, p) (select_2023 conn) ->
        exists (V : float) (n : Z),
          of_int p = Ok V /\
          PyFloat.round (mul V (add one r)) = Ok n /\
          In (Row c start_year (Z.max 1 n)) conn' /\
          forall r', In r' conn' -> key r' = (c, start_year) ->
                     r' = Row c start_year (Z.max 1 n).
Proof.
  intros rng seed random Hunit r conn sy sd Hr Hnd Hsy Hall.
  assert (Hall' : forall c p, In (c, p) (select_2023 conn) ->
                    exists v, grow p r = Ok v /\ v < 2 ^ 63).
  { intros c p Hin. destruct (Hall c p Hin) as (V & n & HV & Hn & Hlt).
    exists (Z.max 1 n). split; [apply (grow_steps p r V n); assumption | assumption]. }
  destruct (rows_walk_one_year rng random Hunit r Hr sy
              (select_2023 conn) (seed sd) Hsy Hall') as (g & ws & Hw & Hf).
  assert (Hrun : simulate_growth rng seed random r r conn sy 1 sd
                 = Ok (apply_writes ws conn)).
  { rewrite simulate_growth_walk. change (range sy 1) with [sy + 0].
    rewrite Z.add_0_r, Hw. reflexivity. }
  exists (apply_writes ws conn). split; [assumption |].
  destruct (simulate_growth_store _ _ _ _ _ _ _ _ _ _ Hnd Hrun)
    as (g' & ws' & Hw' & _ & Hnd' & Heq).
  change (range sy 1) with [sy + 0] in Hw'. rewrite Z.add_0_r, Hw in Hw'.
  injection Hw' as <- <-. rewrite Heq.
  intros c p Hin.
  destruct (Forall2_in_l _ _ _ _ Hf Hin) as ([c' y' v] & Hw' & Hc & Hy & Hv).
  cbn [city year population fst snd] in Hc, Hy, Hv. subst c' y'.
  destruct (Hall c p Hin) as (V & n & HV & Hn & _).
  rewrite (grow_steps p r V n HV Hn) in Hv. injection Hv as <-.
  exists V, n. split; [assumption |]. split; [assumption |].
  apply (written_row_unique conn ws (Row c sy (Z.max 1 n))); assumption.
Qed.

(** At the rate [0.5]: 451001 gives 676501.5, rounded to the even 676502;
    451003 gives 676504.5, rounded to the even 676504; 0 gives 0, raised to
    1.  The row of 2022 is not a base row. *)
Lemma compounding_one_year_witness :
  exists conn',
    simulate_growth nat Cycle.seed Cycle.random (decimal 1 2) (decimal 1 2)
      [Row "Miami" 2023 451001; Row "Tampa" 2023 451003; Row "Hialeah" 2023 0;
       Row "Miami" 2022 7] 2024 1 42 = Ok conn' /\
    (forall r', In r' conn' -> key r' = ("Miami", 2024) ->
                r' = Row "Miami" 2024 676502) /\
    In (Row "Miami" 2024 676502) conn' /\
    In (Row "Tampa" 2024 676504) conn' /\
    In (Row "Hialeah" 2024 1) conn'.
Proof.
  destruct (compounding_one_year nat Cycle.seed Cycle.random cycle_random_unit
              (decimal 1 2)
              [Row "Miami" 2023 451001; Row "Tampa" 2023 451003;
               Row "Hialeah" 2023 0; Row "Miami" 2022 7] 2024 42)
    as (conn' & Hrun & Hrows).
  - vm_compute. reflexivity.
  - vm_compute. repeat constructor; cbn; intuition discriminate.
  - lia.
  - intros c p Hin. vm_compute in Hin.
    destruct Hin as [[= <- <-] | [[= <- <-] | [[= <- <-] | []]]].
    + exists (S754_finite false 7748138181853184 (-34)), 676502.
      split; [vm_compute; reflexivity |].
      split; vm_compute; reflexivity.
    + exists (S754_finite false 7748172541591552 (-34)), 676504.
      split; [vm_compute; reflexivity |].
      split; vm_compute; reflexivity.
    + exists (S754_zero false), 0.
      split; [vm_compute; reflexivity |].
      split; vm_compute; reflexivity.
  - exists conn'. split; [exact Hrun |].
    destruct (Hrows "Miami" 451001) as (V1 & n1 & HV1 & Hn1 & Hin1 & Hu1);
      [left; reflexivity |].
    destruct (Hrows "Tampa" 451003) as (V2 & n2 & HV2 & Hn2 & Hin2 & _);
      [right; left; reflexivity |].
    destruct (Hrows "Hialeah" 0) as (V3 & n3 & HV3 & Hn3 & Hin3 & _);
      [right; right; left; reflexivity |].
    vm_compute in HV1. injection HV1 as <-. vm_compute in Hn1. injection Hn1 as <-.
    vm_compute in HV2. injection HV2 as <-. vm_compute in Hn2. injection Hn2 as <-.
    vm_compute in HV3. injection HV3 as <-. vm_compute in Hn3. injection Hn3 as <-.
    split; [exact Hu1 |]. split; [exact Hin1 |]. split; [exact Hin2 | exact Hin3].
Defined.

Section ZeroRate.

Variable rng : Type.
Variable seed : Z -> rng.
Variable random : rng -> float * rng.
Hypothesis random_unit : forall g, unit_interval (fst (random g)) = true.

Variable years : list Z.
Hypothesis years_int64 : forall y, In y years -> - 2 ^ 63 <= y < 2 ^ 63.



End ZeroRate.



(** ** The seeder *)

Lemma seed_rows_present l : forall conn,
  (forall c, In c (map fst l) -> has_key conn c 2023 = true) ->
  seed_rows l conn = conn.
Proof.
  induction l as [| [c p] l IH]; intros conn H; [reflexivity |].
  cbn [seed_rows fold_left fst snd]. unfold insert_or_ignore.
  rewrite (H c (or_introl eq_refl)). apply IH.
  intros c' Hc'. apply H. right. assumption.
Qed.

Lemma seed_rows_keeps_key l c y : forall conn,
  has_key conn c y = true -> has_key (seed_rows l conn) c y = true.
Proof.
  induction l as [| [c' p'] l IH]; intros conn H; [assumption |].
  cbn [seed_rows fold_left fst snd]. apply IH.
  rewrite has_key_insert_or_ignore, H. reflexivity.
Qed.

Lemma seed_rows_adds_keys l : forall conn c,
  In c (map fst l) -> has_key (seed_rows l conn) c 2023 = true.
Proof.
  induction l as [| [c' p'] l IH]; intros conn c Hin; [contradiction |].
  cbn [seed_rows fold_left fst snd]. destruct Hin as [Hc | Hin].
  - cbn [fst] in Hc. subst c'. apply seed_rows_keeps_key.
    rewrite has_key_insert_or_ignore.
    change (same_key c 2023 (Row c 2023 p')) with
      (same_key (city (Row c 2023 p')) (year (Row c 2023 p')) (Row c 2023 p')).
    rewrite same_key_refl. apply orb_true_r.
  - apply IH. assumption.
Qed.

Lemma insert_2023_data_seed_rows conn :
  insert_2023_data conn = seed_rows cities conn.
Proof. reflexivity. Qed.

(** C6. Seeding is idempotent: a second run of the seeder leaves the store
    exactly as the first run left it, whatever the store held before. *)
Theorem seeding_idempotent :
  forall conn : store,
    insert_2023_data (insert_2023_data conn) = insert_2023_data conn.
Proof.
  intros conn. rewrite !insert_2023_data_seed_rows.
  apply (seed_rows_present cities (seed_rows cities conn)).
  intros c Hc. apply (seed_rows_adds_keys cities conn c Hc).
Qed.

(** ** The renderer *)

(** C8. When the store holds no city, the renderer prints the message and
    does nothing else: its trace is that one print (no prompt, no plot), it
    returns normally, and the store is unchanged. *)
Theorem no_cities_reported :
  forall (conn : store) (line : string),
    select_cities conn = [] ->
    show_city_plot conn line =
    (conn, [Print "No cities found. Did you insert the 2023 data?"]).
Proof.
  intros conn line H. unfold show_city_plot. rewrite H. reflexivity.
Qed.

Lemma no_cities_reported_witness :
  show_city_plot [] "Miami" =
  ([], [Print "No cities found. Did you insert the 2023 data?"]).
Proof.
  apply (no_cities_reported [] "Miami"). reflexivity.
Defined.

(** ** Sorting *)

Section SortFacts.

Context {A : Type} (le : A -> A -> bool).

Lemma in_insert_sorted x y l : In y (insert_sorted le x l) <-> y = x \/ In y l.
Proof.
  induction l as [| a l IH]; cbn [insert_sorted].
  - cbn. intuition.
  - destruct (le x a); cbn [In]; [| rewrite IH]; intuition.
Qed.

Lemma in_sort y l : In y (sort le l) <-> In y l.
Proof.
  induction l as [| a l IH]; [reflexivity |].
  cbn [sort fold_right]. fold (sort le l).
  rewrite in_insert_sorted, IH. cbn. intuition.
Qed.

Lemma insert_sorted_length x l :
  List.length (insert_sorted le x l) = S (List.length l).
Proof.
  induction l as [| a l IH]; [reflexivity |].
  cbn [insert_sorted]. destruct (le x a); cbn [List.length]; congruence.
Qed.

Lemma sort_length l : List.length (sort le l) = List.length l.
Proof.
  induction l as [| a l IH]; [reflexivity |].
  cbn [sort fold_right]. fold (sort le l).
  rewrite insert_sorted_length, IH. reflexivity.
Qed.

Hypothesis le_total : forall x y, le x y = true \/ le y x = true.
Hypothesis le_trans : forall x y z, le x y = true -> le y z = true -> le x z = true.

(** The head of a sorted list is below every element. *)
Lemma sort_head_least l h t :
  sort le l = h :: t -> forall y, In y l -> le h y = true.
Proof.
  revert h t. induction l as [| a l IH]; intros h t Hs y Hy; [contradiction |].
  cbn [sort fold_right] in Hs. fold (sort le l) in Hs.
  assert (Hrefl : forall x, le x x = true) by (intros x; destruct (le_total x x); assumption).
  destruct (sort le l) as [| h' t'] eqn:Hl.
  - assert (l = []) as ->.
    { destruct l as [| b l']; [reflexivity |].
      assert (Hb : In b (sort le (b :: l'))) by (apply in_sort; left; reflexivity).
      rewrite Hl in Hb. contradiction. }
    cbn in Hs. injection Hs as <- <-. destruct Hy as [<- | []]. apply Hrefl.
  - cbn [insert_sorted] in Hs. destruct (le a h') eqn:Hah.
    + injection Hs as <- <-. destruct Hy as [<- | Hy]; [apply Hrefl |].
      apply (le_trans _ h'); [assumption |]. apply (IH h' t' eq_refl). assumption.
    + injection Hs as <- <-. destruct Hy as [<- | Hy].
      * destruct (le_total a h') as [H | H]; [congruence | assumption].
      * apply (IH h' t' eq_refl). assumption.
Qed.

End SortFacts.

Lemma string_leb_trans a : forall b c,
  String.leb a b = true -> String.leb b c = true -> String.leb a c = true.
Proof.
  unfold String.leb.
  induction a as [| a0 a IH]; intros [| b0 b] [| c0 c]; cbn; try congruence.
  unfold Ascii.compare.
  destruct (N.compare_spec (N_of_ascii a0) (N_of_ascii b0)) as [Hab | Hab | Hab];
    destruct (N.compare_spec (N_of_ascii b0) (N_of_ascii c0)) as [Hbc | Hbc | Hbc];
    destruct (N.compare_spec (N_of_ascii a0) (N_of_ascii c0)) as [Hac | Hac | Hac];
    try congruence; try lia.
  apply IH.
Qed.

Lemma in_dedup x l : In x (dedup l) <-> In x l.
Proof.
  induction l as [| a l IH]; [reflexivity |].
  cbn [dedup]. destruct (existsb (String.eqb a) l) eqn:E.
  - rewrite IH. cbn. split; [auto |]. intros [<- | H]; [| assumption].
    apply existsb_exists in E. destruct E as (y & Hy & Heq).
    apply String.eqb_eq in Heq. subst. assumption.
  - cbn. rewrite IH. reflexivity.
Qed.

Lemma in_select_cities c conn : In c (select_cities conn) <-> In c (map city conn).
Proof. unfold select_cities. rewrite in_sort, in_dedup. reflexivity. Qed.

Lemma not_in_existsb_eqb c l : ~ In c l -> existsb (String.eqb c) l = false.
Proof.
  intros H. destruct (existsb (String.eqb c) l) eqn:E; [| reflexivity].
  apply existsb_exists in E. destruct E as (y & Hy & Heq).
  apply String.eqb_eq in Heq. subst. contradiction.
Qed.

Lemma select_series_nonempty conn c :
  In c (map city conn) -> select_series conn c <> [].
Proof.
  intros Hin Hnil. apply in_map_iff in Hin. destruct Hin as (r & Hc & Hr).
  assert (H : In (year r, population r) (select_series conn c)).
  { unfold select_series. apply in_sort.
    apply (in_map (fun r => (year r, population r))).
    apply filter_In. split; [assumption |]. apply String.eqb_eq. assumption. }
  rewrite Hnil in H. contradiction.
Qed.

(** C7, as the code has it.  The choice is the line read with the white
    space around it stripped.  On a non-empty store, a line whose stripped
    form is not one of the store's cities makes the renderer go on with the
    first city of the sorted listing: that city is below every city of the
    store in lexicographic order, its series is not empty, and the trace ends
    with the notice and the plot of that series. *)
Theorem fallback_to_first_city :
  forall (conn : store) (line : string),
    conn <> [] ->
    ~ In (strip line) (select_cities conn) ->
    exists first rest,
      select_cities conn = first :: rest /\
      (forall r, In r conn -> String.leb first (city r) = true) /\
      select_series conn first <> [] /\
      show_city_plot conn line =
      (conn,
       [Print (String.append newline "Available cities:")]
       ++ map (fun c => Print (String.append "- " c)) (first :: rest)
       ++ [Input (String.append newline "Type a city name exactly as shown: ")]
       ++ [Print "Invalid city — showing first city instead."]
       ++ [Plot (String.append "Population Growth for " first)
                (map fst (select_series conn first))
                (map snd (select_series conn first))]).
Proof.
  intros conn line Hne Hnot.
  destruct (select_cities conn) as [| first rest] eqn:Hc.
  - exfalso. destruct conn as [| r conn']; [congruence |].
    assert (H : In (city r) (select_cities (r :: conn'))).
    { apply in_select_cities. left. reflexivity. }
    rewrite Hc in H. contradiction.
  - exists first, rest. split; [reflexivity |].
    assert (Hfirst : In first (map city conn)).
    { apply in_select_cities. rewrite Hc. left. reflexivity. }
    split; [| split].
    + intros r Hr. unfold select_cities in Hc.
      apply (sort_head_least String.leb String.leb_total string_leb_trans _ _ _ Hc).
      apply in_dedup. apply in_map. assumption.
    + apply select_series_nonempty. assumption.
    + unfold show_city_plot. rewrite Hc.
      rewrite (not_in_existsb_eqb _ _ Hnot). reflexivity.
Qed.

Lemma fallback_to_first_city_witness :
  exists first rest,
    select_cities [Row "Tampa" 2023 5; Row "Miami" 2024 4; Row "Miami" 2023 3]
      = first :: rest /\
    (forall r, In r [Row "Tampa" 2023 5; Row "Miami" 2024 4; Row "Miami" 2023 3] ->
               String.leb first (city r) = true) /\
    select_series [Row "Tampa" 2023 5; Row "Miami" 2024 4; Row "Miami" 2023 3] first
      <> [] /\
    show_city_plot [Row "Tampa" 2023 5; Row "Miami" 2024 4; Row "Miami" 2023 3] " Paris " =
    ([Row "Tampa" 2023 5; Row "Miami" 2024 4; Row "Miami" 2023 3],
     [Print (String.append newline "Available cities:")]
     ++ map (fun c => Print (String.append "- " c)) (first :: rest)
     ++ [Input (String.append newline "Type a city name exactly as shown: ")]
     ++ [Print "Invalid city — showing first city instead."]
     ++ [Plot (String.append "Population Growth for " first)
              (map fst (select_series
                 [Row "Tampa" 2023 5; Row "Miami" 2024 4; Row "Miami" 2023 3] first))
              (map snd (select_series
                 [Row "Tampa" 2023 5; Row "Miami" 2024 4; Row "Miami" 2023 3] first))]).
Proof.
  apply (fallback_to_first_city
           [Row "Tampa" 2023 5; Row "Miami" 2024 4; Row "Miami" 2023 3] " Paris ").
  - discriminate.
  - vm_compute. intros [H | [H | []]]; discriminate.
Defined.

(** C7 does not hold of the line as typed: a line that is not itself a city
    of the store but is one once stripped makes the renderer plot that city,
    without the notice, and not the first city of the listing. *)
Lemma fallback_raw_line_counterexample :
  [Row "Cape Coral" 2023 216000; Row "Miami" 2023 451000] <> [] /\
  ~ In " Miami"
       (select_cities [Row "Cape Coral" 2023 216000; Row "Miami" 2023 451000]) /\
  select_cities [Row "Cape Coral" 2023 216000; Row "Miami" 2023 451000]
    = ["Cape Coral"; "Miami"] /\
  show_city_plot [Row "Cape Coral" 2023 216000; Row "Miami" 2023 451000] " Miami" =
  ([Row "Cape Coral" 2023 216000; Row "Miami" 2023 451000],
   [Print (String.append newline "Available cities:");
    Print "- Cape Coral"; Print "- Miami";
    Input (String.append newline "Type a city name exactly as shown: ");
    Plot "Population Growth for Miami" [2023] [451000]]).
Proof.
  split; [discriminate |]. split; [| split; reflexivity].
  vm_compute. intros [H | [H | []]]; discriminate.
Qed.

Example fallback_plots_miami :
  snd (show_city_plot [Row "Tampa" 2023 5; Row "Miami" 2024 4; Row "Miami" 2023 3] " Paris ")
  = [Print (String.append newline "Available cities:");
     Print "- Miami"; Print "- Tampa";
     Input (String.append newline "Type a city name exactly as shown: ");
     Print "Invalid city — showing first city instead.";
     Plot "Population Growth for Miami" [2023; 2024] [3; 4]].
Proof. vm_compute. reflexivity. Qed.

Example strip_example : strip "  Cape Coral " = "Cape Coral".
Proof. reflexivity. Qed.

(** White space beyond ASCII is stripped too: a no-break space (U+00A0)
    after the name, an ideographic space (U+3000) before it and a paragraph
    separator (U+2029) after it. *)
Example strip_no_break_space :
  strip (String.append "Miami" (utf8 [194; 160]%N)) = "Miami".
Proof. vm_compute. reflexivity. Qed.

Example strip_unicode_both_ends :
  strip (String.append (utf8 [227; 128; 128]%N)
           (String.append "St. Petersburg" (utf8 [226; 128; 169; 32]%N)))
  = "St. Petersburg".
Proof. vm_compute. reflexivity. Qed.

(** Other characters stay, also those that share bytes with white space: a
    zero-width space (U+200B, [E2 80 8B]) and the letters U+0105 ([C4 85])
    and U+00E0 ([C3 A0]), whose last bytes are those of U+0085 and U+00A0. *)
Example strip_keeps_other_characters :
  strip (utf8 [226; 128; 139; 77; 196; 133]%N) = utf8 [226; 128; 139; 77; 196; 133]%N /\
  strip (utf8 [195; 160; 32; 195; 160]%N) = utf8 [195; 160; 32; 195; 160]%N.
Proof. split; vm_compute; reflexivity. Qed.

(** A choice with a no-break space after the name is that city. *)
Example no_break_space_choice_plots_miami :
  show_city_plot [Row "Cape Coral" 2023 216000; Row "Miami" 2023 451000]
    (String.append "Miami" (utf8 [194; 160]%N)) =
  ([Row "Cape Coral" 2023 216000; Row "Miami" 2023 451000],
   [Print (String.append newline "Available cities:");
    Print "- Cape Coral"; Print "- Miami";
    Input (String.append newline "Type a city name exactly as shown: ");
    Plot "Population Growth for Miami" [2023] [451000]]).
Proof. vm_compute. reflexivity. Qed.

(** ** What a run depends on *)

(** C1. The simulator is a deterministic function of the seed, the sequence
    of base values, the start year, the horizon and the rate bounds: two runs
    over stores with the same rows of 2023 (in the same order) either raise
    the same exception or make the very same sequence of writes, so that
    from equal stores they leave equal tables. *)
Theorem simulation_deterministic :
  forall (rng : Type) (seed : Z -> rng) (random : rng -> float * rng)
         (rate_min rate_max : float) (conn1 conn2 : store)
         (start_year years rng_seed : Z),
    select_2023 conn1 = select_2023 conn2 ->
    match
      simulate_growth rng seed random rate_min rate_max conn1 start_year years rng_seed,
      simulate_growth rng seed random rate_min rate_max conn2 start_year years rng_seed
    with
    | Ok conn1', Ok conn2' =>
        (exists ws, conn1' = apply_writes ws conn1 /\ conn2' = apply_writes ws conn2) /\
        (conn1 = conn2 -> conn1' = conn2')
    | Raise e1, Raise e2 => e1 = e2
    | _, _ => False
    end.
Proof.
  intros rng seed random rate_min rate_max conn1 conn2 sy n sd Hbase.
  rewrite !simulate_growth_walk, Hbase.
  destruct (rows_walk _ _ _ _ _ _ _) as [[g ws] | e]; cbn [bind snd].
  - split; [exists ws; split; reflexivity | intros ->; reflexivity].
  - reflexivity.
Qed.

Lemma simulation_deterministic_witness :
  match
    simulate_growth nat Cycle.seed Cycle.random default_rate_min default_rate_max
      [Row "Miami" 2023 451000; Row "Tampa" 2023 398000] 2024 3 42,
    simulate_growth nat Cycle.seed Cycle.random default_rate_min default_rate_max
      [Row "Miami" 2023 451000; Row "Miami" 2024 1; Row "Tampa" 2023 398000] 2024 3 42
  with
  | Ok conn1', Ok conn2' =>
      (exists ws,
         conn1' = apply_writes ws [Row "Miami" 2023 451000; Row "Tampa" 2023 398000] /\
         conn2' = apply_writes ws
                    [Row "Miami" 2023 451000; Row "Miami" 2024 1; Row "Tampa" 2023 398000]) /\
      ([Row "Miami" 2023 451000; Row "Tampa" 2023 398000] =
       [Row "Miami" 2023 451000; Row "Miami" 2024 1; Row "Tampa" 2023 398000] ->
       conn1' = conn2')
  | Raise e1, Raise e2 => e1 = e2
  | _, _ => False
  end.
Proof.
  apply (simulation_deterministic nat Cycle.seed Cycle.random
           default_rate_min default_rate_max
           [Row "Miami" 2023 451000; Row "Tampa" 2023 398000]
           [Row "Miami" 2023 451000; Row "Miami" 2024 1; Row "Tampa" 2023 398000]
           2024 3 42).
  reflexivity.
Defined.

Section StartYear.

Variable rng : Type.
Variable random : rng -> float * rng.
Variable rate_min rate_max : float.
Variable sy1 sy2 : Z.

Lemma city_walk_shift : forall (k a : nat) p g g' l,
  city_walk rng random rate_min rate_max
    (map (fun i => sy1 + Z.of_nat i) (seq a k)) p g = Ok (g', l) ->
  (forall i, In i (seq a k) -> - 2 ^ 63 <= sy2 + Z.of_nat i < 2 ^ 63) ->
  city_walk rng random rate_min rate_max
    (map (fun i => sy2 + Z.of_nat i) (seq a k)) p g
  = Ok (g', map (fun yp => (fst yp + (sy2 - sy1), snd yp)) l).
Proof.
  induction k as [| k IH]; intros a p g g' l Hw Hys.
  - cbn in Hw |- *. injection Hw as <- <-. reflexivity.
  - cbn [seq map city_walk] in Hw |- *. destruct (random g) as [u g1].
    destruct (grow p _) as [p' |]; [| discriminate]. cbn [bind] in Hw |- *.
    destruct (bind_int64 (sy1 + Z.of_nat a)) as [y' |] eqn:Hy; [| discriminate].
    cbn [bind] in Hw. apply bind_int64_ok in Hy. destruct Hy as [-> _].
    rewrite bind_int64_in_range by (apply Hys; left; reflexivity).
    cbn [bind]. destruct (bind_int64 p') as [q |]; [| discriminate].
    cbn [bind] in Hw |- *.
    destruct (city_walk _ _ _ _ _ p' g1) as [[g2 l'] |] eqn:Hrec; [| discriminate].
    cbn [bind fst snd] in Hw. injection Hw as <- <-.
    rewrite (IH (S a) p' g1 g2 l' Hrec) by (intros i Hi; apply Hys; right; assumption).
    cbn [bind fst snd map].
    replace (sy1 + Z.of_nat a + (sy2 - sy1)) with (sy2 + Z.of_nat a) by lia.
    reflexivity.
Qed.

Lemma rows_walk_shift (n : Z) : forall rows g g' ws,
  rows_walk rng random rate_min rate_max rows (range sy1 n) g = Ok (g', ws) ->
  (forall y, In y (range sy2 n) -> - 2 ^ 63 <= y < 2 ^ 63) ->
  rows_walk rng random rate_min rate_max rows (range sy2 n) g
  = Ok (g', map (shift_year (sy2 - sy1)) ws).
Proof.
  intros rows g g' ws Hw Hys. revert g g' ws Hw.
  induction rows as [| [c p] rows IH]; intros g g' ws Hw.
  - cbn in Hw |- *. injection Hw as <- <-. reflexivity.
  - cbn [rows_walk] in Hw |- *.
    destruct (city_walk _ _ _ _ (range sy1 n) p g) as [[g1 l] |] eqn:Hc;
      [| discriminate].
    cbn [bind fst snd] in Hw.
    destruct (rows_walk _ _ _ _ rows (range sy1 n) g1) as [[g2 ws'] |] eqn:Hr;
      [| discriminate].
    cbn [bind fst snd] in Hw. injection Hw as <- <-.
    unfold range in Hc |- *. rewrite (city_walk_shift _ _ _ _ _ _ Hc).
    + cbn [bind fst snd]. fold (range sy2 n). rewrite (IH _ _ _ Hr).
      cbn [bind fst snd]. rewrite map_app. unfold city_rows.
      rewrite !map_map. reflexivity.
    + intros i Hi. apply Hys. unfold range.
      apply (in_map (fun i => sy2 + Z.of_nat i)). assumption.
Qed.

End StartYear.

Lemma filter_city_write c s w :
  city w <> c ->
  filter (fun r => String.eqb (city r) c) (write s w) =
  filter (fun r => String.eqb (city r) c) s.
Proof.
  intros Hw. rewrite write_row_eta, filter_app. cbn [filter].
  destruct (String.eqb_spec (city w) c) as [E | _]; [contradiction |].
  rewrite app_nil_r. induction s as [| r s IH]; [reflexivity |].
  cbn [filter]. destruct (same_key (city w) (year w) r) eqn:K; cbn [negb].
  - apply same_key_iff in K. injection K as Kc _.
    destruct (String.eqb_spec (city r) c) as [E | _]; [congruence | apply IH].
  - cbn [filter]. destruct (String.eqb (city r) c); [f_equal |]; apply IH.
Qed.

Lemma filter_city_apply_writes c : forall ws s,
  Forall (fun w => city w <> c) ws ->
  filter (fun r => String.eqb (city r) c) (apply_writes ws s) =
  filter (fun r => String.eqb (city r) c) s.
Proof.
  induction ws as [| w ws IH]; intros s H; [reflexivity |].
  inversion H as [| w' ws' Hw Hws]; subst.
  change (apply_writes (w :: ws) s) with (apply_writes ws (write s w)).
  rewrite IH by assumption. apply filter_city_write. assumption.
Qed.

Lemma in_select_2023_cities c conn :
  In c (map fst (select_2023 conn)) <->
  exists r, In r conn /\ city r = c /\ year r = 2023.
Proof.
  unfold select_2023. rewrite map_map. cbn [fst]. rewrite in_map_iff. split.
  - intros (r & Hc & Hr). apply filter_In in Hr. destruct Hr as [Hr Hy].
    exists r. repeat split; [assumption | assumption | lia].
  - intros (r & Hr & Hc & Hy). exists r. split; [assumption |].
    apply filter_In. split; [assumption | lia].
Qed.

(** C10. Whatever [start_year], [years], the rates and the seed are, the
    base values are the rows of year 2023 and nothing else: a city whose rows
    all lie in other years is not simulated (the run leaves its rows as they
    were and adds none), and a run from another start year makes the same
    writes, the same cities and values in the same order, with the years
    shifted. *)
Theorem base_rows_are_year_2023 :
  forall (rng : Type) (seed : Z -> rng) (random : rng -> float * rng)
         (rate_min rate_max : float) (conn conn' : store)
         (start_year years rng_seed : Z),
    simulate_growth rng seed random rate_min rate_max conn start_year years rng_seed
      = Ok conn' ->
    (forall c,
       (forall r, In r conn -> city r = c -> year r <> 2023) ->
       filter (fun r => String.eqb (city r) c) conn' =
       filter (fun r => String.eqb (city r) c) conn) /\
    (forall start_year',
       (forall y, In y (range start_year' years) -> - 2 ^ 63 <= y < 2 ^ 63) ->
       exists ws,
         conn' = apply_writes ws conn /\
         simulate_growth rng seed random rate_min rate_max conn start_year' years rng_seed
         = Ok (apply_writes (map (shift_year (start_year' - start_year)) ws) conn)).
Proof.
  intros rng seed random rate_min rate_max conn conn' sy n sd Hrun.
  rewrite simulate_growth_walk in Hrun.
  destruct (rows_walk _ _ _ _ _ _ _) as [[g ws] |] eqn:Hw; [| discriminate].
  cbn [bind snd] in Hrun. injection Hrun as <-.
  split.
  - intros c Hc. apply filter_city_apply_writes. apply Forall_forall.
    intros w Hin Hcw.
    pose proof (rows_walk_ok _ _ _ _ _ _ _ _ _ Hw) as [Hk _].
    assert (Hkey : In (key w) (written_keys (select_2023 conn) (range sy n))).
    { rewrite <- Hk. apply in_map. assumption. }
    unfold key in Hkey. apply in_written_keys in Hkey. destruct Hkey as [Hcity _].
    apply in_select_2023_cities in Hcity. destruct Hcity as (r & Hr & Hrc & Hry).
    apply (Hc r Hr); [congruence | assumption].
  - intros sy' Hys. exists ws. split; [reflexivity |].
    rewrite simulate_growth_walk.
    rewrite (rows_walk_shift _ _ _ _ sy sy' n _ _ _ _ Hw Hys). reflexivity.
Qed.

Lemma base_rows_are_year_2023_witness :
  (forall c,
     (forall r, In r [Row "Miami" 2023 451000; Row "Tampa" 2030 398000] ->
                city r = c -> year r <> 2023) ->
     filter (fun r => String.eqb (city r) c)
       [Row "Miami" 2023 451000; Row "Tampa" 2030 398000; Row "Miami" 2030 451000] =
     filter (fun r => String.eqb (city r) c)
       [Row "Miami" 2023 451000; Row "Tampa" 2030 398000]) /\
  (forall start_year',
     (forall y, In y (range start_year' 1) -> - 2 ^ 63 <= y < 2 ^ 63) ->
     exists ws,
       [Row "Miami" 2023 451000; Row "Tampa" 2030 398000; Row "Miami" 2030 451000] =
       apply_writes ws [Row "Miami" 2023 451000; Row "Tampa" 2030 398000] /\
       simulate_growth nat Cycle.seed Cycle.random zero zero
         [Row "Miami" 2023 451000; Row "Tampa" 2030 398000] start_year' 1 42
       = Ok (apply_writes (map (shift_year (start_year' - 2030)) ws)
               [Row "Miami" 2023 451000; Row "Tampa" 2030 398000])).
Proof.
  apply (base_rows_are_year_2023 nat Cycle.seed Cycle.random zero zero
           [Row "Miami" 2023 451000; Row "Tampa" 2030 398000] _ 2030 1 42).
  vm_compute. reflexivity.
Defined.

(** ** The order of the draws *)

Section Draws.

Variable rng : Type.
Variable random : rng -> float * rng.
Variable rate_min rate_max : float.




End Draws.




(** ** Magnitudes of floats

    No statement of a run with the default rates raises: the values stay far
    below the largest float and the largest INTEGER.  The bounds are powers
    of two, which rounding to nearest never crosses. *)

Lemma digits2_pos_lower m : 2 ^ (Zpos (digits2_pos m) - 1) <= Zpos m.
Proof.
  induction m as [m IH | m IH |]; cbn [digits2_pos]; [| | cbn; lia];
    rewrite Pos2Z.inj_succ;
    replace (Z.succ (Zpos (digits2_pos m)) - 1) with (Z.succ (Zpos (digits2_pos m) - 1)) by lia;
    rewrite Z.pow_succ_r by lia; lia.
Qed.

Lemma digits2_pos_upper m : Zpos m < 2 ^ Zpos (digits2_pos m).
Proof.
  induction m as [m IH | m IH |]; cbn [digits2_pos]; [| | cbn; lia];
    rewrite Pos2Z.inj_succ, Z.pow_succ_r by lia; lia.
Qed.

(** [m <= 2^j] bounds the number of digits of [m]. *)
Lemma digits2_pos_le m j : 0 <= j -> Zpos m <= 2 ^ j -> Zpos (digits2_pos m) <= j + 1.
Proof.
  intros Hj Hm. pose proof (digits2_pos_lower m) as Hl.
  destruct (Z.le_gt_cases (Zpos (digits2_pos m)) (j + 1)) as [H | H]; [assumption |].
  exfalso.
  assert (2 ^ (j + 1) <= 2 ^ (Zpos (digits2_pos m) - 1)) by (apply Z.pow_le_mono_r; lia).
  assert (2 ^ j < 2 ^ (j + 1)) by (apply Z.pow_lt_mono_r; lia).
  lia.
Qed.

Lemma shr_1_spec mrs :
  0 <= shr_m mrs ->
  shr_m (shr_1 mrs) = shr_m mrs / 2 /\
  (exact mrs -> shr_m mrs mod 2 = 0 -> exact (shr_1 mrs)).
Proof.
  destruct mrs as [m r s]. cbn [shr_m]. intros Hm. split.
  - rewrite <- Z.div2_div. destruct m as [| [p | p |] | p]; try reflexivity; lia.
  - intros [Hr Hs] Hmod. cbn in Hr, Hs. subst r s. unfold exact.
    destruct m as [| [p | p |] | p]; cbn; try (split; reflexivity); try lia.
    + rewrite Pos2Z.inj_xI in Hmod.
      rewrite Z.add_comm, Z.mul_comm, Z.mod_add in Hmod by lia. discriminate.
    + discriminate.
Qed.

(** [n] halvings: the quotient by [2^n], and no bit is lost when [2^n]
    divides the number. *)
Lemma iter_shr_1_spec p : forall mrs,
  0 <= shr_m mrs ->
  shr_m (iter_pos shr_1 p mrs) = shr_m mrs / 2 ^ Zpos p /\
  (exact mrs -> shr_m mrs mod 2 ^ Zpos p = 0 -> exact (iter_pos shr_1 p mrs)).
Proof.
  assert (Hcompose : forall a b (x y z : shr_record),
    0 < a -> 0 < b -> 0 <= shr_m x ->
    (shr_m y = shr_m x / 2 ^ a /\ (exact x -> shr_m x mod 2 ^ a = 0 -> exact y)) ->
    (shr_m z = shr_m y / 2 ^ b /\ (exact y -> shr_m y mod 2 ^ b = 0 -> exact z)) ->
    shr_m z = shr_m x / 2 ^ (a + b) /\
    (exact x -> shr_m x mod 2 ^ (a + b) = 0 -> exact z)).
  { intros a b x y z Ha Hb Hx [Hy Hey] [Hz Hez].
    assert (H2a : 0 < 2 ^ a) by (apply Z.pow_pos_nonneg; lia).
    assert (H2b : 0 < 2 ^ b) by (apply Z.pow_pos_nonneg; lia).
    rewrite Z.pow_add_r by lia. split.
    - rewrite Hz, Hy, Z.div_div by lia. reflexivity.
    - intros Hex Hmod.
      apply Z.mod_divide in Hmod; [| lia]. destruct Hmod as [q Hq].
      assert (Hxa : shr_m x mod 2 ^ a = 0).
      { apply Z.mod_divide; [lia |]. exists (q * 2 ^ b). lia. }
      apply Hez; [apply Hey; assumption |].
      rewrite Hy. apply Z.mod_divide; [lia |]. exists q.
      replace (shr_m x) with ((q * 2 ^ b) * 2 ^ a) by lia.
      rewrite Z.div_mul by lia. reflexivity. }
  induction p as [p IH | p IH |]; intros mrs Hm; cbn [iter_pos].
  - pose proof (shr_1_spec mrs Hm) as H1.
    assert (Hm1 : 0 <= shr_m (shr_1 mrs)).
    { destruct H1 as [-> _]. apply Z.div_pos; lia. }
    pose proof (IH _ Hm1) as H2.
    assert (Hm2 : 0 <= shr_m (iter_pos shr_1 p (shr_1 mrs))).
    { destruct H2 as [-> _]. apply Z.div_pos; [lia | apply Z.pow_pos_nonneg; lia]. }
    pose proof (IH _ Hm2) as H3.
    replace (Zpos p~1) with ((1 + Zpos p) + Zpos p)
      by (rewrite (Pos2Z.inj_xI p); lia).
    apply (Hcompose (1 + Zpos p) (Zpos p) mrs (iter_pos shr_1 p (shr_1 mrs)));
      [lia | lia | exact Hm | | exact H3].
    apply (Hcompose 1 (Zpos p) mrs (shr_1 mrs)); [lia | lia | exact Hm | exact H1 | exact H2].
  - pose proof (IH _ Hm) as H1.
    assert (Hm1 : 0 <= shr_m (iter_pos shr_1 p mrs)).
    { destruct H1 as [-> _]. apply Z.div_pos; [lia | apply Z.pow_pos_nonneg; lia]. }
    pose proof (IH _ Hm1) as H2.
    replace (Zpos p~0) with (Zpos p + Zpos p)
      by (rewrite (Pos2Z.inj_xO p); lia).
    apply (Hcompose (Zpos p) (Zpos p) mrs (iter_pos shr_1 p mrs));
      [lia | lia | exact Hm | exact H1 | exact H2].
  - apply shr_1_spec. assumption.
Qed.

Lemma fexp_eq z : fexp prec emax z = Z.max (z - 53) (-1074).
Proof. reflexivity. Qed.

Lemma shr_fexp_spec m e :
  0 <= m ->
  let n := fexp prec emax (Zdigits2 m + e) - e in
  let '(mrs, e') := shr_fexp prec emax m e loc_Exact in
  (n <= 0 /\ shr_m mrs = m /\ exact mrs /\ e' = e) \/
  (0 < n /\ e' = e + n /\ shr_m mrs = m / 2 ^ n /\ (m mod 2 ^ n = 0 -> exact mrs)).
Proof.
  intros Hm n. unfold shr_fexp, shr. fold n.
  change (shr_record_of_loc m loc_Exact) with (Build_shr_record m false false).
  destruct n as [| p | p] eqn:Hn.
  - left. split; [lia |]. repeat split.
  - right.
    destruct (iter_shr_1_spec p (Build_shr_record m false false) Hm) as [H1 H2].
    cbn [shr_m] in H1, H2.
    split; [lia |]. split; [reflexivity |]. split; [assumption |].
    intros Hmod. apply H2; [split; reflexivity | assumption].
  - left. split; [lia |]. repeat split.
Qed.

Lemma round_nearest_even_spec mrs :
  let m := round_nearest_even (shr_m mrs) (loc_of_shr_record mrs) in
  shr_m mrs <= m <= shr_m mrs + 1 /\ (exact mrs -> m = shr_m mrs).
Proof.
  destruct mrs as [m [|] [|]]; cbn; unfold exact; cbn;
    try destruct (Z.even m); split; try lia; intros [? ?]; congruence.
Qed.

Lemma div_pow2_le a j n : 0 <= j -> 0 <= n -> a <= 2 ^ (j + n) -> a / 2 ^ n <= 2 ^ j.
Proof.
  intros Hj Hn Ha. rewrite Z.pow_add_r in Ha by assumption.
  assert (0 < 2 ^ n) by (apply Z.pow_pos_nonneg; lia).
  apply Z.div_le_upper_bound; lia.
Qed.

(** Rounding [m * 2^e <= 2^k] to a float gives a float of at most [2^k]:
    it neither overflows nor rounds above the power of two. *)
Lemma binary_round_aux_mag s m e k :
  e <= k -> Zpos m <= 2 ^ (k - e) -> -1074 <= k <= 1023 -> e <= 971 ->
  mag_le (binary_round_aux prec emax s (Zpos m) e loc_Exact) k.
Proof.
  intros Hek Hm Hk He. unfold binary_round_aux.
  pose proof (shr_fexp_spec (Zpos m) e ltac:(lia)) as H1. cbv zeta in H1.
  destruct (shr_fexp prec emax (Zpos m) e loc_Exact) as [mrs' e'].
  pose proof (round_nearest_even_spec mrs') as Hr. cbv zeta in Hr.
  set (m2 := round_nearest_even (shr_m mrs') (loc_of_shr_record mrs')) in *.
  assert (Hd : Zdigits2 (Zpos m) + e <= k + 1).
  { cbn [Zdigits2]. pose proof (digits2_pos_le m (k - e) ltac:(lia) Hm). lia. }
  assert (Hinv : 0 <= m2 /\ e' <= k /\ m2 <= 2 ^ (k - e') /\ e' <= 971).
  { destruct H1 as [(Hn & Hm' & Hex & ->) | (Hn & -> & Hm' & Hex)].
    - destruct Hr as [_ Hr]. rewrite (Hr Hex), Hm'. lia.
    - rewrite fexp_eq in Hn, Hm', Hex |- *.
      set (n := Z.max (Zdigits2 (Zpos m) + e - 53) (-1074) - e) in *.
      assert (Hen : e + n <= k) by lia.
      assert (Hle : shr_m mrs' <= 2 ^ (k - (e + n))).
      { rewrite Hm'. apply div_pow2_le; [lia | lia |].
        replace (k - (e + n) + n) with (k - e) by lia. assumption. }
      assert (H0 : 0 <= shr_m mrs').
      { rewrite Hm'. apply Z.div_pos; [lia | apply Z.pow_pos_nonneg; lia]. }
      repeat split; [lia | lia | | lia].
      destruct (Z.eq_dec (shr_m mrs') (2 ^ (k - (e + n)))) as [Heq | Hneq]; [| lia].
      assert (Hmod : Zpos m mod 2 ^ n = 0).
      { assert (H2n : 0 < 2 ^ n) by (apply Z.pow_pos_nonneg; lia).
        pose proof (Z.div_mod (Zpos m) (2 ^ n) ltac:(lia)) as Hdm.
        pose proof (Z.mod_pos_bound (Zpos m) (2 ^ n) H2n) as Hb.
        rewrite <- Hm', Heq in Hdm.
        replace (k - e) with (n + (k - (e + n))) in Hm by lia.
        rewrite Z.pow_add_r in Hm by lia. lia. }
      destruct Hr as [_ Hr]. rewrite (Hr (Hex Hmod)). lia. }
  destruct Hinv as (Hm2 & He' & Hm2' & He971).
  pose proof (shr_fexp_spec m2 e' Hm2) as H2. cbv zeta in H2.
  destruct (shr_fexp prec emax m2 e' loc_Exact) as [mrs'' e''].
  destruct H2 as [(Hn & Hm'' & _ & ->) | (Hn & -> & Hm'' & _)].
  - rewrite Hm''. destruct m2 as [| q | q]; [exact I | | lia].
    replace (e' <=? emax - prec) with true by (symmetry; apply Z.leb_le; cbn; lia).
    split; assumption.
  - rewrite fexp_eq in Hn, Hm'' |- *.
    destruct m2 as [| q | q]; [| | lia].
    + rewrite Hm''. rewrite Z.div_0_l; [exact I |].
      apply Z.pow_nonzero; lia.
    + set (n := Z.max (Zdigits2 (Zpos q) + e' - 53) (-1074) - e') in *.
      assert (Hd2 : Zdigits2 (Zpos q) + e' <= k + 1).
      { cbn [Zdigits2]. pose proof (digits2_pos_le q (k - e') ltac:(lia) Hm2'). lia. }
      assert (Hle : shr_m mrs'' <= 2 ^ (k - (e' + n))).
      { rewrite Hm''. apply div_pow2_le; [lia | lia |].
        replace (k - (e' + n) + n) with (k - e') by lia. assumption. }
      assert (H0 : 0 <= shr_m mrs'').
      { rewrite Hm''. apply Z.div_pos; [lia | apply Z.pow_pos_nonneg; lia]. }
      destruct (shr_m mrs'') as [| q' | q']; [exact I | | lia].
      replace (e' + n <=? emax - prec) with true by (symmetry; apply Z.leb_le; cbn; lia).
      split; [lia | assumption].
Qed.

Lemma mag_le_mono x k k' : mag_le x k -> k <= k' -> mag_le x k'.
Proof.
  destruct x as [s | s | | s m e]; cbn; try tauto.
  intros [He Hm] Hk. split; [lia |].
  apply (Z.le_trans _ _ _ Hm). apply Z.pow_le_mono_r; lia.
Qed.

Lemma shl_align_fst m e e' :
  e' <= e -> Zpos (fst (shl_align m e e')) = Zpos m * 2 ^ (e - e').
Proof.
  intros H. unfold shl_align. destruct (e' - e) as [| d | d] eqn:Hd.
  - replace (e - e') with 0 by lia. cbn [fst]. lia.
  - lia.
  - cbn [fst]. change (Pos.iter xO m d) with (shift_pos d m).
    rewrite shift_pos_correct. replace (e - e') with (Zpos d) by lia.
    change (Z.pow_pos 2 d) with (2 ^ Zpos d). lia.
Qed.

Lemma shl_align_snd m e e' : snd (shl_align m e e') = Z.min e e'.
Proof.
  unfold shl_align. destruct (e' - e) as [| d | d] eqn:Hd; cbn [snd]; lia.
Qed.

Lemma binary_round_mag s m e k :
  e <= k -> Zpos m <= 2 ^ (k - e) -> -1074 <= k <= 1023 -> e <= 971 ->
  mag_le (binary_round prec emax s m e) k.
Proof.
  intros Hek Hm Hk He. unfold binary_round.
  set (e' := fexp prec emax (Zpos (digits2_pos m) + e)).
  pose proof (shl_align_snd m e e') as Hs.
  destruct (Z.le_gt_cases e' e) as [Hle | Hgt].
  - pose proof (shl_align_fst m e e' Hle) as Hf.
    destruct (shl_align m e e') as [mz ez]. cbn [fst snd] in Hs, Hf.
    apply binary_round_aux_mag; try lia.
    rewrite Hf, Hs. replace (Z.min e e') with e' by lia.
    replace (k - e') with ((k - e) + (e - e')) by lia.
    rewrite Z.pow_add_r by lia.
    apply Z.mul_le_mono_nonneg_r; [apply Z.pow_nonneg; lia | assumption].
  - unfold shl_align in *. destruct (e' - e) as [| d | d] eqn:Hd; try lia.
    apply binary_round_aux_mag; assumption.
Qed.

Lemma binary_normalize_mag z e k :
  e <= k -> Z.abs z <= 2 ^ (k - e) -> -1074 <= k <= 1023 -> e <= 971 ->
  mag_le (binary_normalize prec emax z e false) k.
Proof.
  intros Hek Hz Hk He. destruct z as [| m | m]; cbn [binary_normalize].
  - exact I.
  - apply binary_round_mag; assumption.
  - apply binary_round_mag; assumption.
Qed.

Lemma mul_mag x y kx ky :
  mag_le x kx -> mag_le y ky -> -1074 <= kx + ky <= 971 ->
  mag_le (mul x y) (kx + ky).
Proof.
  destruct x as [sx | sx | | sx mx ex]; destruct y as [sy | sy | | sy my ey];
    cbn [mag_le]; try tauto; try (intros; exact I).
  intros [Hex Hmx] [Hey Hmy] Hk. unfold mul, SFmul.
  apply binary_round_aux_mag; try lia.
  rewrite Pos2Z.inj_mul.
  replace (kx + ky - (ex + ey)) with ((kx - ex) + (ky - ey)) by lia.
  rewrite Z.pow_add_r by lia.
  apply Z.mul_le_mono_nonneg; lia.
Qed.

Lemma add_mag x y k :
  mag_le x k -> mag_le y k -> -1075 <= k <= 970 ->
  mag_le (add x y) (k + 1).
Proof.
  intros Hx Hy Hk.
  destruct x as [sx | sx | | sx mx ex]; destruct y as [sy | sy | | sy my ey];
    cbn [mag_le] in Hx, Hy; try tauto.
  - destruct sx, sy; exact I.
  - apply (mag_le_mono (S754_finite sy my ey) k); [exact Hy | lia].
  - apply (mag_le_mono (S754_finite sx mx ex) k); [exact Hx | lia].
  - destruct Hx as [Hex Hmx], Hy as [Hey Hmy]. unfold add, SFadd.
    set (ez := Z.min ex ey).
    pose proof (shl_align_fst mx ex ez ltac:(lia)) as Hfx.
    pose proof (shl_align_fst my ey ez ltac:(lia)) as Hfy.
    apply binary_normalize_mag; try lia.
    assert (Hbx : Zpos (fst (shl_align mx ex ez)) <= 2 ^ (k - ez)).
    { rewrite Hfx. replace (k - ez) with ((k - ex) + (ex - ez)) by lia.
      rewrite Z.pow_add_r by lia.
      apply Z.mul_le_mono_nonneg_r; [apply Z.pow_nonneg; lia | assumption]. }
    assert (Hby : Zpos (fst (shl_align my ey ez)) <= 2 ^ (k - ez)).
    { rewrite Hfy. replace (k - ez) with ((k - ey) + (ey - ez)) by lia.
      rewrite Z.pow_add_r by lia.
      apply Z.mul_le_mono_nonneg_r; [apply Z.pow_nonneg; lia | assumption]. }
    replace (k + 1 - ez) with (Z.succ (k - ez)) by lia.
    rewrite Z.pow_succ_r by lia.
    destruct sx, sy; cbn [cond_Zopp]; lia.
Qed.

Lemma of_int_mag n k :
  0 <= k <= 971 -> Z.abs n <= 2 ^ k ->
  exists x, of_int n = Ok x /\ mag_le x k.
Proof.
  intros Hk Hn. unfold of_int.
  pose proof (binary_normalize_mag n 0 k ltac:(lia)) as H.
  rewrite Z.sub_0_r in H. specialize (H Hn ltac:(lia) ltac:(lia)).
  destruct (binary_normalize prec emax n 0 false) as [s | s | | s m e];
    cbn [mag_le] in H; try tauto; eexists; split; try reflexivity; exact H.
Qed.

Lemma round_half_even_le m e k :
  0 <= k -> e <= k -> 0 < m <= 2 ^ (k - e) -> 0 <= round_half_even m e <= 2 ^ k.
Proof.
  intros Hk He Hm. unfold round_half_even.
  destruct (Z.leb_spec 0 e) as [H0 | H0].
  - assert (Hp : 2 ^ k = 2 ^ (k - e) * 2 ^ e).
    { rewrite <- Z.pow_add_r by lia. f_equal. lia. }
    assert (0 < 2 ^ e) by (apply Z.pow_pos_nonneg; lia). nia.
  - set (d := 2 ^ (- e)).
    assert (Hd : 0 < d) by (apply Z.pow_pos_nonneg; lia).
    assert (Hmd : m <= 2 ^ k * d).
    { unfold d. rewrite <- Z.pow_add_r by lia.
      replace (k + - e) with (k - e) by lia. lia. }
    pose proof (Z.div_mod m d ltac:(lia)) as Hdm.
    pose proof (Z.mod_pos_bound m d Hd) as Hb.
    assert (Hq0 : 0 <= m / d) by (apply Z.div_pos; lia).
    assert (Hq : m / d <= 2 ^ k) by (apply Z.div_le_upper_bound; lia).
    destruct (Z.eq_dec (m / d) (2 ^ k)) as [Heq | Hne].
    + assert (Hr : m mod d = 0) by nia.
      rewrite Hr. replace (2 * 0 ?= d) with Lt by (symmetry; apply Z.compare_lt_iff; lia).
      lia.
    + destruct (2 * (m mod d) ?= d); try destruct (Z.even (m / d)); lia.
Qed.

Lemma round_mag x k :
  0 <= k -> mag_le x k -> exists n, round x = Ok n /\ - 2 ^ k <= n <= 2 ^ k.
Proof.
  intros Hk Hx. assert (0 < 2 ^ k) by (apply Z.pow_pos_nonneg; lia).
  destruct x as [s | s | | s m e]; cbn [mag_le] in Hx; try tauto.
  - exists 0. split; [reflexivity | lia].
  - destruct Hx as [He Hm].
    pose proof (round_half_even_le (Zpos m) e k Hk He ltac:(lia)) as Hr.
    eexists. split; [reflexivity |]. destruct s; cbn [cond_Zopp]; lia.
Qed.

Lemma unit_interval_mag u : unit_interval u = true -> mag_le u 0.
Proof.
  unfold unit_interval. intros H.
  apply andb_true_iff in H. destruct H as [H Hlt].
  apply andb_true_iff in H. destruct H as [Hv Hle].
  destruct u as [s | s | | s m e]; cbn [mag_le]; try exact I;
    try (destruct s; discriminate); try discriminate.
  destruct s; [discriminate |].
  unfold SFltb, SFcompare, one in Hlt.
  cbn [valid_binary] in Hv. unfold bounded, canonical_mantissa in Hv.
  apply andb_true_iff in Hv. destruct Hv as [Hc _].
  apply Z.eqb_eq in Hc. rewrite fexp_eq in Hc.
  pose proof (digits2_pos_upper m) as Hu.
  destruct (Z.compare_spec e (-52)) as [He | He | He]; [| | discriminate].
  - subst e. split; [lia |].
    destruct (Pos.compare_cont Eq m 4503599627370496) eqn:Hcmp; try discriminate.
    change (2 ^ (0 - -52)) with 4503599627370496.
    apply Z.lt_le_incl. exact Hcmp.
  - split; [lia |].
    assert (Hdig : Zpos (digits2_pos m) <= 53) by lia.
    assert (2 ^ Zpos (digits2_pos m) <= 2 ^ 53) by (apply Z.pow_le_mono_r; lia).
    assert (2 ^ 53 <= 2 ^ (0 - e)) by (apply Z.pow_le_mono_r; lia).
    lia.
Qed.

(** ** A run with small rates does not raise *)

Lemma of_int_1 : of_int 1 = Ok one.
Proof. reflexivity. Qed.

Lemma mag_le_one : mag_le one 0.
Proof. split; [lia | apply Z.le_refl]. Qed.

(** With a rate of at most 1 in magnitude a step at most doubles the value. *)
Lemma grow_bounded p rate k :
  0 <= k <= 61 -> Z.abs p <= 2 ^ k -> mag_le rate 0 ->
  exists v, grow p rate = Ok v /\ 1 <= v <= 2 ^ (k + 1).
Proof.
  intros Hk Hp Hrate. unfold grow, int_add_float, int_mul_float.
  rewrite of_int_1. cbn [bind].
  pose proof (add_mag one rate 0 mag_le_one Hrate ltac:(lia)) as Hf.
  destruct (of_int_mag p k ltac:(lia) Hp) as (fp & -> & Hfp). cbn [bind].
  pose proof (mul_mag fp (add one rate) k (0 + 1) Hfp Hf ltac:(lia)) as Hx.
  destruct (round_mag _ (k + (0 + 1)) ltac:(lia) Hx) as (n & -> & Hn).
  cbn [bind]. eexists. split; [reflexivity |].
  replace (k + (0 + 1)) with (k + 1) in Hn by lia.
  assert (0 < 2 ^ (k + 1)) by (apply Z.pow_pos_nonneg; lia). lia.
Qed.

Lemma uniform_mag rate_min rate_max u :
  small_rates rate_min rate_max -> unit_interval u = true ->
  mag_le (uniform rate_min rate_max u) 0.
Proof.
  intros [Hmin Hwidth] Hu. unfold uniform.
  apply unit_interval_mag in Hu.
  pose proof (mul_mag _ _ (-1) 0 Hwidth Hu ltac:(lia)) as Hm.
  apply (add_mag _ _ (-1) Hmin Hm). lia.
Qed.

Lemma default_rates_small : small_rates default_rate_min default_rate_max.
Proof.
  split.
  - change default_rate_min with (S754_finite true 5764607523034235 (-59)).
    split; [lia |]. change (2 ^ (-1 - -59)) with 288230376151711744. lia.
  - change (sub default_rate_max default_rate_min)
      with (S754_finite false 5764607523034235 (-57)).
    split; [lia |]. change (2 ^ (-1 - -57)) with 72057594037927936. lia.
Qed.

Section NoRaise.

Variable rng : Type.
Variable random : rng -> float * rng.
Hypothesis random_unit : forall g, unit_interval (fst (random g)) = true.

Variable rate_min rate_max : float.
Hypothesis rates : small_rates rate_min rate_max.

Variable years : list Z.
Hypothesis years_int64 : forall y, In y years -> - 2 ^ 63 <= y < 2 ^ 63.

Lemma city_walk_succeeds : forall p g k,
  0 <= k -> k + Z.of_nat (List.length years) <= 62 -> Z.abs p <= 2 ^ k ->
  exists g' l, city_walk rng random rate_min rate_max years p g = Ok (g', l).
Proof.
  induction years as [| y ys IH]; intros p g k Hk Hlen Hp.
  - exists g, []. reflexivity.
  - cbn [List.length] in Hlen. cbn [city_walk].
    pose proof (random_unit g) as Hu. destruct (random g) as [u g1].
    cbn [fst] in Hu.
    destruct (grow_bounded p (uniform rate_min rate_max u) k ltac:(lia) Hp
                (uniform_mag _ _ _ rates Hu)) as (v & -> & Hv).
    cbn [bind]. rewrite bind_int64_in_range by (apply years_int64; left; reflexivity).
    assert (Hpow : 2 ^ (k + 1) <= 2 ^ 62) by (apply Z.pow_le_mono_r; lia).
    cbn [bind]. rewrite bind_int64_in_range by lia. cbn [bind].
    destruct (IH (fun y' H => years_int64 y' (or_intror H)) v g1 (k + 1))
      as (g' & l & ->); [lia | lia | lia |].
    cbn [bind fst snd]. eexists _, _. reflexivity.
Qed.

Lemma rows_walk_succeeds k : forall rows g,
  0 <= k -> k + Z.of_nat (List.length years) <= 62 ->
  (forall c p, In (c, p) rows -> Z.abs p <= 2 ^ k) ->
  exists g' ws, rows_walk rng random rate_min rate_max rows years g = Ok (g', ws).
Proof.
  induction rows as [| [c p] rows IH]; intros g Hk Hlen Hall.
  - exists g, []. reflexivity.
  - cbn [rows_walk].
    destruct (city_walk_succeeds p g k Hk Hlen (Hall c p (or_introl eq_refl)))
      as (g1 & l & ->).
    cbn [bind fst snd].
    destruct (IH g1 Hk Hlen) as (g2 & ws & ->).
    { intros c' p' Hin. apply (Hall c' p'). right. assumption. }
    cbn [bind fst snd]. eexists _, _. reflexivity.
Qed.

End NoRaise.

(** ** The series of a city after the default run *)

Lemma sort_ascending (l : list (Z * Z)) :
  StronglySorted Z.le (map fst l) ->
  sort (fun a b => fst a <=? fst b) l = l.
Proof.
  induction l as [| a l IH]; intros Hs; [reflexivity |].
  cbn [map] in Hs. apply StronglySorted_inv in Hs. destruct Hs as [Hs Hall].
  cbn [sort fold_right]. fold (sort (fun a b : Z * Z => fst a <=? fst b) l).
  rewrite (IH Hs). destruct l as [| b l']; [reflexivity |].
  cbn [insert_sorted]. cbn [map] in Hall. inversion Hall as [| x xs Hab _]; subst.
  replace (fst a <=? fst b) with true by (symmetry; apply Z.leb_le; assumption).
  reflexivity.
Qed.

Lemma range_sorted start n : StronglySorted Z.le (range start n).
Proof.
  unfold range. generalize 0%nat as a.
  induction (Z.to_nat n) as [| k IH]; intros a; cbn [seq map]; constructor.
  - apply IH.
  - apply Forall_forall. intros y Hy. apply in_map_iff in Hy.
    destruct Hy as (i & <- & Hi). apply in_seq in Hi. lia.
Qed.

Lemma filter_city_absent (rows : list (string * Z)) c :
  ~ In c (map fst rows) ->
  filter (fun r => String.eqb (city r) c) (map seeded_row rows) = [].
Proof.
  induction rows as [| [c0 p0] rows IH]; intros Hnot; [reflexivity |].
  cbn [map filter seeded_row city fst]. cbn [map fst] in Hnot.
  destruct (String.eqb_spec c0 c) as [-> | _]; [exfalso; apply Hnot; left; reflexivity |].
  apply IH. intros H. apply Hnot. right. assumption.
Qed.

Lemma filter_city_seeded (rows : list (string * Z)) c p :
  NoDup (map fst rows) -> In (c, p) rows ->
  filter (fun r => String.eqb (city r) c) (map seeded_row rows) = [Row c 2023 p].
Proof.
  induction rows as [| [c0 p0] rows IH]; intros Hnd Hin; [contradiction |].
  cbn [map fst] in Hnd. inversion Hnd as [| x xs Hc0 Hnd']; subst.
  cbn [map filter seeded_row city fst snd]. destruct Hin as [[= -> ->] | Hin].
  - rewrite String.eqb_refl. f_equal. apply filter_city_absent. assumption.
  - destruct (String.eqb_spec c0 c) as [-> | _].
    + exfalso. apply Hc0. apply (in_map fst rows (c, p)). assumption.
    + apply IH; assumption.
Qed.

Lemma filter_keys_other_city c0 c (years : list Z) :
  String.eqb c0 c = false ->
  filter (fun k : string * Z => String.eqb (fst k) c) (map (fun y => (c0, y)) years) = [].
Proof.
  intros Hne. induction years as [| y ys IHy]; [reflexivity |].
  cbn [map filter fst]. rewrite Hne. apply IHy.
Qed.

Lemma filter_keys_same_city c (years : list Z) :
  filter (fun k : string * Z => String.eqb (fst k) c) (map (fun y => (c, y)) years)
  = map (fun y => (c, y)) years.
Proof.
  induction years as [| y ys IHy]; [reflexivity |].
  cbn [map filter fst]. rewrite String.eqb_refl. f_equal. apply IHy.
Qed.

Lemma filter_written_keys_absent (rows : list (string * Z)) years c :
  ~ In c (map fst rows) ->
  filter (fun k => String.eqb (fst k) c) (written_keys rows years) = [].
Proof.
  induction rows as [| [c0 p0] rows IH]; intros Hnot; [reflexivity |].
  change (written_keys ((c0, p0) :: rows) years)
    with (map (fun y => (c0, y)) years ++ written_keys rows years).
  cbn [map fst] in Hnot. rewrite filter_app, IH, app_nil_r
    by (intros H; apply Hnot; right; assumption).
  assert (Hne : String.eqb c0 c = false).
  { destruct (String.eqb_spec c0 c) as [-> | _]; [| reflexivity].
    exfalso. apply Hnot. left. reflexivity. }
  apply filter_keys_other_city. assumption.
Qed.

Lemma filter_written_keys (rows : list (string * Z)) years c :
  NoDup (map fst rows) -> In c (map fst rows) ->
  filter (fun k => String.eqb (fst k) c) (written_keys rows years)
  = map (fun y => (c, y)) years.
Proof.
  induction rows as [| [c0 p0] rows IH]; intros Hnd Hin; [contradiction |].
  cbn [map fst] in Hnd, Hin. inversion Hnd as [| x xs Hc0 Hnd']; subst.
  change (written_keys ((c0, p0) :: rows) years)
    with (map (fun y => (c0, y)) years ++ written_keys rows years).
  rewrite filter_app. destruct (String.eqb_spec c0 c) as [-> | Hne].
  - rewrite filter_written_keys_absent, app_nil_r by assumption.
    apply filter_keys_same_city.
  - destruct Hin as [-> | Hin]; [congruence |].
    rewrite (IH Hnd' Hin), filter_keys_other_city
      by (apply String.eqb_neq; assumption).
    reflexivity.
Qed.

Lemma insert_2023_data_fresh : insert_2023_data [] = map seeded_row cities.
Proof. reflexivity. Qed.

Lemma cities_NoDup : NoDup (map fst cities).
Proof. repeat constructor; cbn; intuition discriminate. Qed.

Lemma cities_bounded c p : In (c, p) cities -> Z.abs p <= 2 ^ 20.
Proof.
  intros Hin. cbn in Hin.
  repeat (destruct Hin as [[= <- <-] | Hin]; [cbn; lia |]). contradiction.
Qed.

(** C4. After seeding a fresh store and running the simulation with the
    default parameters (start year 2024, 20 years, rates [-0.01] and [0.03]),
    the run has not raised and every seeded city has exactly 21 rows (the
    base-year row and one row per simulated year); its series has the years
    2023, 2024, ..., 2043 in ascending order, and its row of 2023 still holds
    the seeded value.  This holds for every generator whose draws lie in
    [[0.0, 1.0)] and for every seed. *)
Theorem series_complete_after_default_run :
  forall (rng : Type) (seed : Z -> rng) (random : rng -> float * rng),
    (forall g, unit_interval (fst (random g)) = true) ->
  forall rng_seed : Z,
    exists conn',
      simulate_growth rng seed random default_rate_min default_rate_max
        (insert_2023_data []) 2024 20 rng_seed = Ok conn' /\
      forall c p, In (c, p) cities ->
        List.length (filter (fun r => String.eqb (city r) c) conn') = 21%nat /\
        map fst (select_series conn' c) = range 2023 21 /\
        hd_error (select_series conn' c) = Some (2023, p).
Proof.
  intros rng seed random Hunit sd.
  assert (Hbase : select_2023 (insert_2023_data []) = cities) by reflexivity.
  assert (Hyears : forall y, In y (range 2024 20) -> - 2 ^ 63 <= y < 2 ^ 63).
  { intros y Hy. apply in_range in Hy. lia. }
  destruct (rows_walk_succeeds rng random Hunit _ _ default_rates_small
              (range 2024 20) Hyears 20 cities (seed sd))
    as (g & ws & Hw); [lia | rewrite range_length; lia | exact cities_bounded |].
  assert (Hrun : simulate_growth rng seed random default_rate_min default_rate_max
                   (insert_2023_data []) 2024 20 sd
                 = Ok (apply_writes ws (insert_2023_data []))).
  { rewrite simulate_growth_walk, Hbase, Hw. reflexivity. }
  exists (apply_writes ws (insert_2023_data [])). split; [exact Hrun |].
  assert (Hnd : NoDup (map fst (select_2023 (insert_2023_data [])))).
  { rewrite Hbase. exact cities_NoDup. }
  destruct (simulate_growth_store _ _ _ _ _ _ _ _ _ _ Hnd Hrun)
    as (g' & ws' & Hw' & Hkeys & Hnd' & Heq).
  rewrite Hbase, Hw in Hw'. injection Hw' as <- <-. rewrite Hbase in Hkeys.
  assert (Hkept : filter (fun r => negb (overwritten ws r)) (insert_2023_data [])
                  = insert_2023_data []).
  { apply forallb_filter_id. apply forallb_forall. intros r Hr.
    apply negb_true_iff. destruct (overwritten ws r) eqn:Hov; [| reflexivity].
    exfalso. apply overwritten_iff in Hov. rewrite Hkeys in Hov.
    unfold key in Hov. apply in_written_keys in Hov. destruct Hov as [_ Hy].
    apply in_range in Hy.
    rewrite insert_2023_data_fresh in Hr. apply in_map_iff in Hr.
    destruct Hr as (cp & <- & _). cbn [seeded_row year] in Hy. lia. }
  rewrite Heq, Hkept. clear Heq Hkept Hrun.
  intros c p Hin.
  set (fws := filter (fun r => String.eqb (city r) c) ws).
  assert (Hfilter : filter (fun r => String.eqb (city r) c) (insert_2023_data [] ++ ws)
                    = Row c 2023 p :: fws).
  { rewrite filter_app, insert_2023_data_fresh.
    rewrite (filter_city_seeded cities c p cities_NoDup Hin). reflexivity. }
  assert (Hfkeys : map key fws = map (fun y => (c, y)) (range 2024 20)).
  { unfold fws.
    rewrite <- (filter_written_keys cities (range 2024 20) c cities_NoDup
                  (in_map fst cities (c, p) Hin)).
    rewrite <- Hkeys. symmetry.
    apply (filter_map_swap (fun k : string * Z => String.eqb (fst k) c) key ws). }
  assert (Hfyears : map year fws = range 2024 20).
  { change year with (fun r => snd (key r)). rewrite <- (map_map key snd), Hfkeys.
    rewrite map_map. cbn [snd]. apply map_id. }
  assert (Hyrs : map fst (map (fun r => (year r, population r)) (Row c 2023 p :: fws))
                 = range 2023 21).
  { rewrite map_map. change (2023 :: map year fws = range 2023 21).
    rewrite Hfyears. reflexivity. }
  assert (Hsorted : select_series (insert_2023_data [] ++ ws) c
                    = map (fun r => (year r, population r)) (Row c 2023 p :: fws)).
  { unfold select_series. rewrite Hfilter. apply sort_ascending.
    rewrite Hyrs. apply range_sorted. }
  rewrite Hfilter, Hsorted. split; [| split].
  - cbn [List.length]. f_equal.
    rewrite <- (length_map year), Hfyears, range_length. reflexivity.
  - exact Hyrs.
  - reflexivity.
Qed.

Lemma series_complete_after_default_run_witness :
  exists conn',
    simulate_growth nat Cycle.seed Cycle.random default_rate_min default_rate_max
      (insert_2023_data []) 2024 20 42 = Ok conn' /\
    forall c p, In (c, p) cities ->
      List.length (filter (fun r => String.eqb (city r) c) conn') = 21%nat /\
      map fst (select_series conn' c) = range 2023 21 /\
      hd_error (select_series conn' c) = Some (2023, p).
Proof.
  apply (series_complete_after_default_run nat Cycle.seed Cycle.random
           cycle_random_unit 42).
Defined.

(** The first draw of Python's generator seeded with 42 is
    [0.6394267984578837]; with the default bounds it gives the rate
    [0.015577071938315348], and Jacksonville's value for 2024. *)
Example first_draw_seed_42 :
  let u := S754_finite false 5759444582531269 (-53) in
  unit_interval u = true /\
  uniform default_rate_min default_rate_max u
    = S754_finite false 8979570608245813 (-59) /\
  grow 985000 (uniform default_rate_min default_rate_max u) = Ok 1000343.
Proof. vm_compute. repeat split. Qed.

(** * Further properties of the store operations *)

Lemma has_key_iff s c y : has_key s c y = true <-> In (c, y) (map key s).
Proof.
  unfold has_key. rewrite existsb_exists, in_map_iff. split.
  - intros (r & Hr & Hk). exists r. split; [apply same_key_iff |]; assumption.
  - intros (r & Hk & Hr). exists r. split; [| apply same_key_iff]; assumption.
Qed.

Lemma seed_rows_appends l : forall conn,
  exists added,
    seed_rows l conn = conn ++ added /\
    forall r, In r added ->
      In (city r, population r) l /\ year r = 2023 /\
      has_key conn (city r) 2023 = false.
Proof.
  induction l as [| [c p] l IH]; intros conn.
  - exists []. split; [symmetry; apply app_nil_r | intros r []].
  - cbn [seed_rows fold_left fst snd]. fold (seed_rows l (insert_or_ignore conn c 2023 p)).
    unfold insert_or_ignore. destruct (has_key conn c 2023) eqn:Hk.
    + destruct (IH conn) as (added & Heq & Hadd). exists added.
      split; [assumption |]. intros r Hr.
      destruct (Hadd r Hr) as (H1 & H2 & H3). repeat split; [right |..]; assumption.
    + destruct (IH (conn ++ [Row c 2023 p])) as (added & Heq & Hadd).
      exists (Row c 2023 p :: added). split.
      * rewrite Heq, <- app_assoc. reflexivity.
      * intros r [<- | Hr].
        -- cbn. repeat split; [left; reflexivity | assumption].
        -- destruct (Hadd r Hr) as (H1 & H2 & H3).
           rewrite has_key_app in H3. apply orb_false_iff in H3.
           repeat split; [right; assumption | assumption | apply H3].
Qed.

(** X1. The seeder only appends: it leaves every row of the store where it
    was, and each row it adds is a seeded city at 2023 whose key the store did
    not hold.  A row already present at a seeded key is never overwritten. *)
Theorem seeder_only_appends_missing_rows :
  forall conn : store,
    exists added,
      insert_2023_data conn = conn ++ added /\
      forall r, In r added ->
        In (city r, population r) cities /\ year r = 2023 /\
        has_key conn (city r) 2023 = false.
Proof.
  intros conn. rewrite insert_2023_data_seed_rows. apply seed_rows_appends.
Qed.

Lemma insert_or_ignore_unique_keys s c y p :
  NoDup (map key s) -> NoDup (map key (insert_or_ignore s c y p)).
Proof.
  intros Hnd. unfold insert_or_ignore. destruct (has_key s c y) eqn:Hk; [assumption |].
  rewrite map_app. apply NoDup_app; [assumption | repeat constructor; intros [] |].
  intros k Hin [<- | []]. change (In (c, y) (map key s)) in Hin.
  apply has_key_iff in Hin. congruence.
Qed.

Lemma seed_rows_unique_keys l : forall conn,
  NoDup (map key conn) -> NoDup (map key (seed_rows l conn)).
Proof.
  induction l as [| [c p] l IH]; intros conn Hnd; [assumption |].
  cbn [seed_rows fold_left fst snd]. apply IH.
  apply insert_or_ignore_unique_keys. assumption.
Qed.

(** X2. The seeder keeps the primary key: on a store whose rows have
    pairwise distinct [(city, year)] keys, so has the store it leaves. *)
Theorem seeder_keeps_keys_unique :
  forall conn : store,
    NoDup (map key conn) -> NoDup (map key (insert_2023_data conn)).
Proof.
  intros conn Hnd. rewrite insert_2023_data_seed_rows.
  apply seed_rows_unique_keys. assumption.
Qed.

Lemma NoDup_map_filter {A B} (f : A -> B) (g : A -> bool) l :
  NoDup (map f l) -> NoDup (map f (filter g l)).
Proof.
  induction l as [| a l IH]; intros Hnd; [constructor |].
  cbn [map] in Hnd. inversion Hnd as [| x xs Ha Hnd']; subst.
  cbn [filter]. destruct (g a); [| apply IH; assumption].
  cbn [map]. constructor; [| apply IH; assumption].
  intros Hin. apply Ha. apply in_map_iff in Hin. destruct Hin as (b & Hb & Hin).
  apply filter_In in Hin. rewrite <- Hb. apply in_map. apply Hin.
Qed.

Lemma write_unique_keys s w : NoDup (map key s) -> NoDup (map key (write s w)).
Proof.
  intros Hnd. rewrite write_row_eta, map_app. apply NoDup_app.
  - apply NoDup_map_filter. assumption.
  - repeat constructor. intros [].
  - intros k Hin [<- | []]. apply in_map_iff in Hin.
    destruct Hin as (r & Hk & Hr). apply filter_In in Hr. destruct Hr as [_ Hne].
    apply negb_true_iff in Hne.
    assert (Hsame : same_key (city w) (year w) r = true).
    { apply same_key_iff. assumption. }
    congruence.
Qed.

Lemma apply_writes_unique_keys ws : forall s,
  NoDup (map key s) -> NoDup (map key (apply_writes ws s)).
Proof.
  induction ws as [| w ws IH]; intros s Hnd; [assumption |].
  change (apply_writes (w :: ws) s) with (apply_writes ws (write s w)).
  apply IH. apply write_unique_keys. assumption.
Qed.

(** X3. The simulator keeps the primary key: a run that does not raise
    leaves a store with pairwise distinct [(city, year)] keys, when the store
    it started from had them. *)
Theorem simulator_keeps_keys_unique :
  forall (rng : Type) (seed : Z -> rng) (random : rng -> float * rng)
         (rate_min rate_max : float) (conn conn' : store)
         (start_year years rng_seed : Z),
    NoDup (map key conn) ->
    simulate_growth rng seed random rate_min rate_max conn start_year years rng_seed
      = Ok conn' ->
    NoDup (map key conn').
Proof.
  intros rng seed random rate_min rate_max conn conn' sy n sd Hnd Hrun.
  rewrite simulate_growth_walk in Hrun.
  destruct (rows_walk _ _ _ _ _ _ _) as [[g ws] |]; [| discriminate].
  cbn [bind snd] in Hrun. injection Hrun as <-.
  apply apply_writes_unique_keys. assumption.
Qed.

Lemma in_apply_writes_kept r : forall ws s,
  In r s -> overwritten ws r = false -> In r (apply_writes ws s).
Proof.
  induction ws as [| w ws IH]; intros s Hin Hov; [assumption |].
  change (apply_writes (w :: ws) s) with (apply_writes ws (write s w)).
  cbn [overwritten existsb] in Hov. fold (overwritten ws r) in Hov.
  apply orb_false_iff in Hov. destruct Hov as [Hw Hov].
  apply IH; [| assumption]. apply in_write. right. split; [assumption |].
  rewrite <- same_key_sym. assumption.
Qed.

(** X4. The simulator touches nothing but the keys it writes: a row whose
    key is not a city of the 2023 rows at a year of the range is in the store
    after the run exactly when it was there before. *)
Theorem simulator_leaves_other_keys :
  forall (rng : Type) (seed : Z -> rng) (random : rng -> float * rng)
         (rate_min rate_max : float) (conn conn' : store)
         (start_year years rng_seed : Z) (r : row),
    simulate_growth rng seed random rate_min rate_max conn start_year years rng_seed
      = Ok conn' ->
    ~ In (key r) (written_keys (select_2023 conn) (range start_year years)) ->
    (In r conn' <-> In r conn).
Proof.
  intros rng seed random rate_min rate_max conn conn' sy n sd r Hrun Hkey.
  rewrite simulate_growth_walk in Hrun.
  destruct (rows_walk _ _ _ _ _ _ _) as [[g ws] |] eqn:Hw; [| discriminate].
  cbn [bind snd] in Hrun. injection Hrun as <-.
  apply rows_walk_ok in Hw. destruct Hw as [Hk _].
  assert (Hov : overwritten ws r = false).
  { destruct (overwritten ws r) eqn:E; [| reflexivity].
    apply overwritten_iff in E. rewrite Hk in E. contradiction. }
  split.
  - intros Hin. apply in_apply_writes in Hin. destruct Hin as [Hin | [Hin _]]; [| assumption].
    exfalso. apply Hkey. rewrite <- Hk. apply in_map. assumption.
  - intros Hin. apply in_apply_writes_kept; assumption.
Qed.

Lemma rows_walk_no_years (rng : Type) (random : rng -> float * rng)
      (rate_min rate_max : float) : forall rows g,
  rows_walk rng random rate_min rate_max rows [] g = Ok (g, []).
Proof.
  induction rows as [| [c p] rows IH]; intros g; [reflexivity |].
  cbn [rows_walk city_walk bind fst snd]. rewrite IH. reflexivity.
Qed.

(** X5. With nothing to simulate the run does nothing: when [years] is zero
    or negative, or when the store has no row of 2023, the run returns
    normally and leaves the store as it was. *)
Theorem nothing_to_simulate :
  forall (rng : Type) (seed : Z -> rng) (random : rng -> float * rng)
         (rate_min rate_max : float) (conn : store)
         (start_year years rng_seed : Z),
    years <= 0 \/ select_2023 conn = [] ->
    simulate_growth rng seed random rate_min rate_max conn start_year years rng_seed
      = Ok conn.
Proof.
  intros rng seed random rate_min rate_max conn sy n sd H.
  rewrite simulate_growth_walk. destruct H as [Hn | Hbase].
  - unfold range. replace (Z.to_nat n) with 0%nat by lia. cbn [seq map].
    rewrite rows_walk_no_years. reflexivity.
  - rewrite Hbase. reflexivity.
Qed.

Lemma filter_filter_implied {A} (f g : A -> bool) l :
  (forall x, In x l -> f x = true -> g x = true) ->
  filter f (filter g l) = filter f l.
Proof.
  induction l as [| a l IH]; intros H; [reflexivity |].
  cbn [filter]. destruct (g a) eqn:Hg.
  - cbn [filter]. destruct (f a); [f_equal |]; apply IH; intros x Hx; apply H; right; assumption.
  - destruct (f a) eqn:Hf.
    + rewrite (H a (or_introl eq_refl) Hf) in Hg. discriminate.
    + apply IH. intros x Hx. apply H. right. assumption.
Qed.

Lemma filter_none {A} (f : A -> bool) l :
  (forall x, In x l -> f x = false) -> filter f l = [].
Proof.
  induction l as [| a l IH]; intros H; [reflexivity |].
  cbn [filter]. rewrite (H a (or_introl eq_refl)). apply IH.
  intros x Hx. apply H. right. assumption.
Qed.

Lemma simulate_growth_rerun :
  forall (rng : Type) (seed : Z -> rng) (random : rng -> float * rng)
         (rate_min rate_max : float) (conn conn' : store)
         (start_year years rng_seed : Z),
    NoDup (map fst (select_2023 conn)) ->
    ~ In 2023 (range start_year years) ->
    simulate_growth rng seed random rate_min rate_max conn start_year years rng_seed
      = Ok conn' ->
    simulate_growth rng seed random rate_min rate_max conn' start_year years rng_seed
      = Ok conn'.
Proof.
  intros rng seed random rate_min rate_max conn conn' sy n sd Hnd H2023 Hrun.
  destruct (simulate_growth_store _ _ _ _ _ _ _ _ _ _ Hnd Hrun)
    as (g & ws & Hw & Hkeys & Hnd' & Heq).
  assert (Hyear : forall w, In w ws -> year w <> 2023).
  { intros w Hin Hy. apply H2023. rewrite <- Hy.
    assert (Hk : In (key w) (written_keys (select_2023 conn) (range sy n))).
    { rewrite <- Hkeys. apply in_map. assumption. }
    unfold key in Hk. apply in_written_keys in Hk. apply Hk. }
  assert (Hbase : select_2023 conn' = select_2023 conn).
  { rewrite Heq. unfold select_2023. rewrite filter_app.
    rewrite (filter_none (fun r => year r =? 2023) ws).
    - rewrite app_nil_r. f_equal. apply filter_filter_implied.
      intros r Hr Hy. apply Z.eqb_eq in Hy. apply negb_true_iff.
      destruct (overwritten ws r) eqn:Hov; [| reflexivity].
      exfalso. apply overwritten_iff in Hov. rewrite Hkeys in Hov.
      unfold key in Hov. apply in_written_keys in Hov. destruct Hov as [_ Hov].
      apply H2023. rewrite <- Hy. assumption.
    - intros w Hin. apply Z.eqb_neq. apply Hyear. assumption. }
  rewrite simulate_growth_walk, Hbase, Hw. cbn [bind snd]. f_equal.
  rewrite apply_writes_nodup by assumption.
  rewrite Heq at 2. rewrite Heq, filter_app. f_equal.
  rewrite (filter_none _ ws).
  - rewrite app_nil_r. apply filter_filter_implied. intros; assumption.
  - intros w Hin. apply negb_false_iff. apply overwritten_iff.
    apply in_map. assumption.
Qed.

(** X6. Running the simulation again changes nothing: when the range of
    years does not contain 2023, a second run with the same parameters and
    seed on the store a first run left gives that same store. *)
Theorem simulation_rerun_is_idempotent :
  forall (rng : Type) (seed : Z -> rng) (random : rng -> float * rng)
         (rate_min rate_max : float) (conn conn' : store)
         (start_year years rng_seed : Z),
    NoDup (map fst (select_2023 conn)) ->
    ~ In 2023 (range start_year years) ->
    simulate_growth rng seed random rate_min rate_max conn start_year years rng_seed
      = Ok conn' ->
    simulate_growth rng seed random rate_min rate_max conn' start_year years rng_seed
      = Ok conn'.
Proof. exact simulate_growth_rerun. Qed.

Lemma in_select_series conn c y p :
  In (y, p) (select_series conn c) <-> In (Row c y p) conn.
Proof.
  unfold select_series. rewrite in_sort, in_map_iff. split.
  - intros ([c' y' p'] & [= <- <-] & Hin). apply filter_In in Hin.
    destruct Hin as [Hin Hc]. cbn in Hc. apply String.eqb_eq in Hc. subst c'.
    assumption.
  - intros Hin. exists (Row c y p). split; [reflexivity |].
    apply filter_In. split; [assumption | apply String.eqb_refl].
Qed.

(** X7. Insert-or-replace, then read: after [INSERT OR REPLACE] of
    [(c, y, p)] the series of [c] has the point [(y, p)] and no other point
    at year [y], whatever the store held at that key, and the series of every
    other city is as it was. *)
Theorem replace_then_series :
  forall (conn : store) (c : string) (y p : Z),
    In (y, p) (select_series (insert_or_replace conn c y p) c) /\
    (forall q, In (y, q) (select_series (insert_or_replace conn c y p) c) -> q = p) /\
    (forall c', c' <> c ->
       select_series (insert_or_replace conn c y p) c' = select_series conn c').
Proof.
  intros conn c y p. split; [| split].
  - apply in_select_series. unfold insert_or_replace. apply in_or_app.
    right. left. reflexivity.
  - intros q Hq. apply in_select_series in Hq. unfold insert_or_replace in Hq.
    apply in_app_or in Hq. destruct Hq as [Hq | [[= ->] | []]]; [| reflexivity].
    apply filter_In in Hq. destruct Hq as [_ Hne]. apply negb_true_iff in Hne.
    unfold same_key in Hne. cbn [city year] in Hne.
    rewrite String.eqb_refl, Z.eqb_refl in Hne. discriminate.
  - intros c' Hc'. unfold select_series. f_equal. f_equal.
    apply (filter_city_write c' conn (Row c y p)). cbn. congruence.
Qed.

(** * Further properties of the queries and the renderer *)

Section SortCorrect.

Context {A : Type} (le : A -> A -> bool).

Lemma insert_sorted_perm x l : Permutation (insert_sorted le x l) (x :: l).
Proof.
  induction l as [| a l IH]; [reflexivity |].
  cbn [insert_sorted]. destruct (le x a); [reflexivity |].
  apply (perm_trans (perm_skip a IH)). apply perm_swap.
Qed.

Lemma sort_perm l : Permutation (sort le l) l.
Proof.
  induction l as [| a l IH]; [constructor |].
  cbn [sort fold_right]. fold (sort le l).
  apply (perm_trans (insert_sorted_perm a (sort le l))). apply perm_skip. exact IH.
Qed.

Hypothesis le_total : forall x y, le x y = true \/ le y x = true.
Hypothesis le_trans : forall x y z, le x y = true -> le y z = true -> le x z = true.

Lemma insert_sorted_sorted x l :
  StronglySorted (fun a b => le a b = true) l ->
  StronglySorted (fun a b => le a b = true) (insert_sorted le x l).
Proof.
  induction l as [| a l IH]; intros Hs.
  - repeat constructor.
  - apply StronglySorted_inv in Hs. destruct Hs as [Hs Hall].
    cbn [insert_sorted]. destruct (le x a) eqn:Hxa.
    + constructor; [constructor; assumption |].
      constructor; [assumption |].
      apply (Forall_impl _ (fun b Hab => le_trans x a b Hxa Hab) Hall).
    + constructor; [apply IH; assumption |].
      apply Forall_forall. intros b Hb. apply in_insert_sorted in Hb.
      destruct Hb as [-> | Hb].
      * destruct (le_total x a) as [H | H]; [congruence | assumption].
      * rewrite Forall_forall in Hall. apply Hall. assumption.
Qed.

Lemma sort_sorted l : StronglySorted (fun a b => le a b = true) (sort le l).
Proof.
  induction l as [| a l IH]; [constructor |].
  cbn [sort fold_right]. apply insert_sorted_sorted. exact IH.
Qed.

End SortCorrect.

Lemma dedup_NoDup l : NoDup (dedup l).
Proof.
  induction l as [| a l IH]; [constructor |].
  cbn [dedup]. destruct (existsb (String.eqb a) l) eqn:E; [assumption |].
  constructor; [| assumption]. rewrite in_dedup. intros Hin.
  rewrite (proj2 (existsb_exists _ _)) in E; [discriminate |].
  exists a. split; [assumption | apply String.eqb_refl].
Qed.

(** X8. The listing of cities is complete, sorted and free of duplicates:
    it holds exactly the cities that have a row in the store, each once, in
    ascending lexicographic order. *)
Theorem listing_sorted_distinct_complete :
  forall conn : store,
    (forall c, In c (select_cities conn) <-> exists r, In r conn /\ city r = c) /\
    NoDup (select_cities conn) /\
    StronglySorted (fun a b => String.leb a b = true) (select_cities conn).
Proof.
  intros conn. split; [| split].
  - intros c. rewrite in_select_cities, in_map_iff. split.
    + intros (r & Hc & Hr). exists r. split; assumption.
    + intros (r & Hr & Hc). exists r. split; assumption.
  - unfold select_cities.
    apply (Permutation_NoDup (Permutation_sym (sort_perm String.leb _))).
    apply dedup_NoDup.
  - apply sort_sorted; [apply String.leb_total | apply string_leb_trans].
Qed.

Lemma sorted_le_NoDup_lt l :
  StronglySorted Z.le l -> NoDup l -> StronglySorted Z.lt l.
Proof.
  induction l as [| a l IH]; intros Hs Hnd; [constructor |].
  apply StronglySorted_inv in Hs. destruct Hs as [Hs Hall].
  inversion Hnd as [| x xs Ha Hnd']; subst.
  constructor; [apply IH; assumption |].
  apply Forall_forall. intros b Hb. rewrite Forall_forall in Hall.
  specialize (Hall b Hb). assert (a <> b) by (intros ->; contradiction). lia.
Qed.

Lemma sorted_map_fst (l : list (Z * Z)) :
  StronglySorted (fun a b => (fst a <=? fst b) = true) l ->
  StronglySorted Z.le (map fst l).
Proof.
  induction 1 as [| a l Hs IH Hall]; cbn [map]; constructor; [assumption |].
  apply Forall_map. apply (Forall_impl _ (fun b H => proj1 (Z.leb_le _ _) H) Hall).
Qed.

Lemma series_years_NoDup conn c :
  NoDup (map key conn) -> NoDup (map fst (select_series conn c)).
Proof.
  intros Hnd. unfold select_series.
  apply (Permutation_NoDup
           (Permutation_map fst (Permutation_sym (sort_perm _ _)))).
  rewrite map_map. cbn [fst].
  set (l := filter (fun r => String.eqb (city r) c) conn).
  assert (Hk : NoDup (map key l)) by (apply NoDup_map_filter; assumption).
  assert (Hc : forall r, In r l -> city r = c).
  { intros r Hr. apply filter_In in Hr. apply String.eqb_eq. apply Hr. }
  assert (Heq : map key l = map (fun y => (c, y)) (map (fun r => year r) l)).
  { rewrite map_map. apply map_ext_in. intros r Hr. unfold key.
    rewrite (Hc r Hr). reflexivity. }
  rewrite Heq in Hk. apply NoDup_map_inv in Hk. exact Hk.
Qed.

(** X9. The series of a city is complete and in ascending order of year: it
    holds a point [(y, p)] exactly when the store holds the row [(c, y, p)],
    and, when the keys of the store are pairwise distinct, its years are
    strictly increasing, so that no year is plotted twice. *)
Theorem series_sorted_complete :
  forall (conn : store) (c : string),
    (forall y p, In (y, p) (select_series conn c) <-> In (Row c y p) conn) /\
    StronglySorted Z.le (map fst (select_series conn c)) /\
    (NoDup (map key conn) -> StronglySorted Z.lt (map fst (select_series conn c))).
Proof.
  intros conn c.
  assert (Hs : StronglySorted Z.le (map fst (select_series conn c))).
  { apply sorted_map_fst. unfold select_series. apply sort_sorted.
    - intros x y. rewrite !Z.leb_le. lia.
    - intros x y z. rewrite !Z.leb_le. lia. }
  split; [| split].
  - intros y p. apply in_select_series.
  - exact Hs.
  - intros Hnd. apply sorted_le_NoDup_lt; [exact Hs |].
    apply series_years_NoDup. assumption.
Qed.

(** X10. On a non-empty store the renderer plots one city of the store,
    whatever the line read: the stripped line when it is a city of the store
    and the first city of the listing otherwise.  The plot is the last event
    of the trace and the only plot, and its series is that city's whole
    series, which is not empty. *)
Theorem renderer_plots_a_city_of_the_store :
  forall (conn : store) (line : string),
    conn <> [] ->
    exists c before,
      snd (show_city_plot conn line) =
        before ++ [Plot (String.append "Population Growth for " c)
                        (map fst (select_series conn c))
                        (map snd (select_series conn c))] /\
      existsb is_plot before = false /\
      In c (map city conn) /\
      select_series conn c <> [] /\
      (In (strip line) (map city conn) -> c = strip line) /\
      (~ In (strip line) (map city conn) -> hd_error (select_cities conn) = Some c).
Proof.
  intros conn line Hne. unfold show_city_plot.
  destruct (select_cities conn) as [| first rest] eqn:Hc.
  - exfalso. destruct conn as [| r conn']; [congruence |].
    assert (H : In (city r) (select_cities (r :: conn'))).
    { apply in_select_cities. left. reflexivity. }
    rewrite Hc in H. contradiction.
  - assert (Hlisting : forall l, existsb is_plot
              (map (fun c => Print (String.append "- " c)) l) = false).
    { induction l as [| a l IH]; [reflexivity | exact IH]. }
    destruct (existsb (String.eqb (strip line)) (first :: rest)) eqn:Hex; cbn [negb snd].
    + apply existsb_exists in Hex. destruct Hex as (c & Hin & Heq).
      apply String.eqb_eq in Heq. subst c.
      rewrite <- Hc in Hin. apply in_select_cities in Hin.
      exists (strip line). eexists. split.
      * rewrite !app_assoc. reflexivity.
      * split; [| split; [| split; [| split]]].
        -- rewrite !existsb_app, Hlisting. reflexivity.
        -- assumption.
        -- apply select_series_nonempty. assumption.
        -- reflexivity.
        -- intros Hnot. contradiction.
    + assert (Hfirst : In first (map city conn)).
      { apply in_select_cities. rewrite Hc. left. reflexivity. }
      exists first. eexists. split.
      * rewrite !app_assoc. reflexivity.
      * split; [| split; [| split; [| split]]].
        -- rewrite !existsb_app, Hlisting. reflexivity.
        -- assumption.
        -- apply select_series_nonempty. assumption.
        -- intros Hin. exfalso. apply in_select_cities in Hin. rewrite Hc in Hin.
           rewrite (proj2 (existsb_exists _ _)) in Hex; [discriminate |].
           exists (strip line). split; [assumption | apply String.eqb_refl].
        -- reflexivity.
Qed.

(** * Further properties of the simulator's arithmetic *)

Lemma uniform_not_finite a b u :
  is_finite a = false \/ is_finite b = false ->
  unit_interval u = true ->
  is_finite (uniform a b u) = false.
Proof.
  intros H Hu. apply unit_interval_finite in Hu. unfold uniform.
  destruct u as [su | su | | su mu eu]; try discriminate;
    destruct a as [sa | sa | | sa ma ea]; destruct b as [sb | sb | | sb mb eb];
    cbn in H; try (destruct H; discriminate);
    try destruct sa; try destruct sb; try destruct su; reflexivity.
Qed.

Lemma grow_not_finite p rate :
  is_finite rate = false -> exists e, grow p rate = Raise e.
Proof.
  intros Hr. unfold grow, int_add_float, int_mul_float. rewrite of_int_1.
  cbn [bind]. destruct (of_int p) as [fp | e]; [| exists e; reflexivity].
  cbn [bind].
  destruct rate as [s | s | | s m e]; try discriminate;
    destruct fp as [sf | sf | | sf mf ef]; try destruct s; try destruct sf;
    cbn; eexists; reflexivity.
Qed.

Lemma range_positive start n : 0 < n -> exists ys, range start n = start :: ys.
Proof.
  intros Hn. unfold range. destruct (Z.to_nat n) as [| k] eqn:Hk; [lia |].
  cbn [seq map]. rewrite Z.add_0_r. eexists. reflexivity.
Qed.

(** X11. Rate bounds that are not finite never produce a row: when
    [rate_min] or [rate_max] is an infinity or a NaN and there is something
    to simulate (a row of 2023 and at least one year), the run raises on the
    first value it computes. *)
Theorem non_finite_rate_raises :
  forall (rng : Type) (seed : Z -> rng) (random : rng -> float * rng),
    (forall g, unit_interval (fst (random g)) = true) ->
  forall (rate_min rate_max : float) (conn : store)
         (start_year years rng_seed : Z),
    is_finite rate_min = false \/ is_finite rate_max = false ->
    select_2023 conn <> [] ->
    0 < years ->
    exists e,
      simulate_growth rng seed random rate_min rate_max conn start_year years rng_seed
        = Raise e.
Proof.
  intros rng seed random Hunit rate_min rate_max conn sy n sd Hrates Hbase Hn.
  unfold simulate_growth.
  destruct (select_2023 conn) as [| [c p] rows]; [congruence |].
  destruct (range_positive sy n Hn) as (ys & ->).
  cbn [simulate_rows simulate_city].
  pose proof (Hunit (seed sd)) as Hu. destruct (random (seed sd)) as [u g1].
  cbn [fst] in Hu.
  destruct (grow_not_finite p _ (uniform_not_finite _ _ _ Hrates Hu)) as (e & ->).
  exists e. reflexivity.
Qed.

(** X12. A base value of 0 is floored to 1 by the first step, for every
    finite rate of magnitude at most [2^970]. *)
Theorem zero_is_floored_to_one :
  forall rate : float, mag_le rate 970 -> grow 0 rate = Ok 1.
Proof.
  intros rate Hr. unfold grow, int_add_float, int_mul_float. rewrite of_int_1.
  cbn [bind].
  pose proof (add_mag one rate 970
                (mag_le_mono one 0 970 mag_le_one ltac:(lia)) Hr ltac:(lia)) as Hf.
  change (of_int 0) with (Ok (S754_zero false)). cbn [bind].
  destruct (add one rate) as [s | s | | s m e]; cbn [mag_le] in Hf; try tauto;
    reflexivity.
Qed.

(** ** Exact values: the rate 0.0 *)






(** Above [2^53] the conversion to a float can change the value. *)
Example zero_rate_changes_2_53_plus_1 :
  grow (2 ^ 53 + 1) zero = Ok (2 ^ 53).
Proof. vm_compute. reflexivity. Qed.

(** * The program *)

Lemma unique_keys_base s :
  NoDup (map key s) -> NoDup (map fst (select_2023 s)).
Proof.
  intros Hnd. unfold select_2023. rewrite map_map. cbn [fst].
  set (l := filter (fun r => year r =? 2023) s).
  assert (Hk : NoDup (map key l)) by (apply NoDup_map_filter; assumption).
  assert (Heq : map key l = map (fun c => (c, 2023)) (map (fun r => city r) l)).
  { rewrite map_map. apply map_ext_in. intros r Hr. apply filter_In in Hr.
    destruct Hr as [_ Hy]. apply Z.eqb_eq in Hy. unfold key. rewrite Hy. reflexivity. }
  rewrite Heq in Hk. apply NoDup_map_inv in Hk. exact Hk.
Qed.

Lemma append_inj_r s : forall a b,
  String.append a s = String.append b s -> a = b.
Proof.
  assert (Hlen : forall a, String.length (String.append a s)
                           = (String.length a + String.length s)%nat).
  { induction a as [| c a IH]; cbn; [reflexivity | rewrite IH; reflexivity]. }
  induction a as [| c a IH]; intros [| d b] H; cbn in H.
  - reflexivity.
  - exfalso. apply (f_equal String.length) in H.
    cbn [String.length] in H. rewrite Hlen in H. lia.
  - exfalso. apply (f_equal String.length) in H.
    cbn [String.length] in H. rewrite Hlen in H. lia.
  - injection H as -> H. f_equal. apply IH. assumption.
Qed.

(** X14. Different initials never share a database: the file names of two
    initials are equal only when the initials are. *)
Theorem db_name_injective :
  forall a b : string, db_name a = db_name b -> a = b.
Proof.
  intros a b H. unfold db_name in H. cbn in H.
  injection H as H. apply append_inj_r in H. assumption.
Qed.

Section ProgramFacts.

Variable rng : Type.
Variable seed : Z -> rng.
Variable random : rng -> float * rng.

(** The default run on a freshly seeded store: the store it leaves. *)
Lemma default_run_fresh :
  (forall g, unit_interval (fst (random g)) = true) ->
  forall rng_seed,
  exists ws,
    simulate_growth rng seed random default_rate_min default_rate_max
      (insert_2023_data []) 2024 20 rng_seed = Ok (insert_2023_data [] ++ ws) /\
    map key ws = written_keys cities (range 2024 20) /\
    Forall (fun r => 1 <= population r < 2 ^ 63) ws.
Proof.
  intros Hunit sd.
  assert (Hbase : select_2023 (insert_2023_data []) = cities) by reflexivity.
  assert (Hyears : forall y, In y (range 2024 20) -> - 2 ^ 63 <= y < 2 ^ 63).
  { intros y Hy. apply in_range in Hy. lia. }
  destruct (rows_walk_succeeds rng random Hunit _ _ default_rates_small
              (range 2024 20) Hyears 20 cities (seed sd))
    as (g & ws & Hw); [lia | rewrite range_length; lia | exact cities_bounded |].
  pose proof (rows_walk_ok _ _ _ _ _ _ _ _ _ Hw) as [Hkeys Hall].
  exists ws. split; [| split; assumption].
  rewrite simulate_growth_walk, Hbase, Hw. cbn [bind snd]. f_equal.
  rewrite apply_writes_nodup
    by (rewrite Hkeys; apply written_keys_NoDup; [exact cities_NoDup | apply range_NoDup]).
  f_equal. apply forallb_filter_id. apply forallb_forall. intros r Hr.
  apply negb_true_iff. destruct (overwritten ws r) eqn:Hov; [| reflexivity].
  exfalso. apply overwritten_iff in Hov. rewrite Hkeys in Hov.
  unfold key in Hov. apply in_written_keys in Hov. destruct Hov as [_ Hy].
  apply in_range in Hy.
  rewrite insert_2023_data_fresh in Hr. apply in_map_iff in Hr.
  destruct Hr as (cp & <- & _). cbn [seeded_row year] in Hy. lia.
Qed.

Lemma fresh_series ws c p :
  map key ws = written_keys cities (range 2024 20) ->
  In (c, p) cities ->
  exists fws,
    select_series (insert_2023_data [] ++ ws) c
      = (2023, p) :: map (fun r => (year r, population r)) fws /\
    map year fws = range 2024 20 /\
    incl fws ws.
Proof.
  intros Hkeys Hin.
  set (fws := filter (fun r => String.eqb (city r) c) ws).
  assert (Hfilter : filter (fun r => String.eqb (city r) c) (insert_2023_data [] ++ ws)
                    = Row c 2023 p :: fws).
  { rewrite filter_app, insert_2023_data_fresh.
    rewrite (filter_city_seeded cities c p cities_NoDup Hin). reflexivity. }
  assert (Hfkeys : map key fws = map (fun y => (c, y)) (range 2024 20)).
  { unfold fws.
    rewrite <- (filter_written_keys cities (range 2024 20) c cities_NoDup
                  (in_map fst cities (c, p) Hin)).
    rewrite <- Hkeys. symmetry.
    apply (filter_map_swap (fun k : string * Z => String.eqb (fst k) c) key ws). }
  assert (Hfyears : map year fws = range 2024 20).
  { change year with (fun r => snd (key r)). rewrite <- (map_map key snd), Hfkeys.
    rewrite map_map. cbn [snd]. apply map_id. }
  exists fws. split; [| split].
  - unfold select_series. rewrite Hfilter. apply sort_ascending.
    cbn [map]. rewrite map_map.
    change (StronglySorted Z.le (2023 :: map year fws)).
    rewrite Hfyears. apply (range_sorted 2023 21).
  - assumption.
  - intros r Hr. apply filter_In in Hr. apply Hr.
Qed.

Lemma fresh_listing ws :
  map key ws = written_keys cities (range 2024 20) ->
  select_cities (insert_2023_data [] ++ ws) =
  ["Cape Coral"; "Fort Lauderdale"; "Hialeah"; "Jacksonville"; "Miami";
   "Orlando"; "Port St. Lucie"; "St. Petersburg"; "Tallahassee"; "Tampa"].
Proof.
  intros Hkeys. unfold select_cities. rewrite map_app.
  replace (map city ws) with (map fst (map key ws)) by (rewrite map_map; reflexivity).
  rewrite Hkeys. vm_compute. reflexivity.
Qed.

End ProgramFacts.

Lemma commit_same fs name conn : commit fs name conn name = Some conn.
Proof. unfold commit. rewrite String.eqb_refl. reflexivity. Qed.

Lemma commit_other fs name conn n : n <> name -> commit fs name conn n = fs n.
Proof.
  intros H. unfold commit. apply String.eqb_neq in H. rewrite H. reflexivity.
Qed.

Lemma listing_has_no_plot l :
  existsb is_plot (map (fun c => Print (String.append "- " c)) l) = false.
Proof. induction l as [| a l IH]; [reflexivity | exact IH]. Qed.

(** X15. The call of [main] on a database that does not exist yet and can
    be created: it returns without an exception, touches no other file,
    commits a table of 210 rows and plots one of the ten cities, the stripped
    choice when it is one of them and Cape Coral otherwise.  The plot is the
    last event and the only plot; its years are 2023, ..., 2043 and its first
    value is the seeded value of the city, followed by 20 values of at least
    1.  Run as a script, the module does all that and then ends with the
    [NameError] of its last line. *)
Theorem main_on_a_new_database :
  forall (rng : Type) (seed : Z -> rng) (random : rng -> float * rng)
         (connects : string -> bool),
    (forall g, unit_interval (fst (random g)) = true) ->
  forall (fs : files) (initials_line choice_line : string),
    connects (db_name (initials_or_default initials_line)) = true ->
    fs (db_name (initials_or_default initials_line)) = None ->
    exists fs' conn' before c p pops,
      main rng seed random connects fs initials_line choice_line =
        (fs',
         Input "Enter your initials (e.g., WCM): " ::
         before ++ [Plot (String.append "Population Growth for " c)
                         (range 2023 21) (p :: pops)],
         None) /\
      script rng seed random connects fs initials_line choice_line =
        (fs',
         Input "Enter your initials (e.g., WCM): " ::
         before ++ [Plot (String.append "Population Growth for " c)
                         (range 2023 21) (p :: pops)],
         Some NameError) /\
      fs' (db_name (initials_or_default initials_line)) = Some conn' /\
      (forall n, n <> db_name (initials_or_default initials_line) -> fs' n = fs n) /\
      List.length conn' = 210%nat /\
      existsb is_plot before = false /\
      In (c, p) cities /\
      List.length pops = 20%nat /\
      Forall (fun v => 1 <= v) pops /\
      (In (strip choice_line) (map fst cities) -> c = strip choice_line) /\
      (~ In (strip choice_line) (map fst cities) -> c = "Cape Coral").
Proof.
  intros rng seed random connects Hunit fs l1 l2 Hconn Hnew.
  destruct (default_run_fresh rng seed random Hunit 42) as (ws & Hrun & Hkeys & Hall).
  set (name := db_name (initials_or_default l1)) in *.
  set (conn' := insert_2023_data [] ++ ws) in *.
  assert (Hplot : exists before c p pops,
    snd (show_city_plot conn' l2) =
      before ++ [Plot (String.append "Population Growth for " c)
                      (range 2023 21) (p :: pops)] /\
    existsb is_plot before = false /\ In (c, p) cities /\
    List.length pops = 20%nat /\ Forall (fun v => 1 <= v) pops /\
    (In (strip l2) (map fst cities) -> c = strip l2) /\
    (~ In (strip l2) (map fst cities) -> c = "Cape Coral")).
  { assert (Hseries : forall c p, In (c, p) cities ->
      exists pops,
        map fst (select_series conn' c) = range 2023 21 /\
        map snd (select_series conn' c) = p :: pops /\
        List.length pops = 20%nat /\ Forall (fun v => 1 <= v) pops).
    { intros c p Hin. destruct (fresh_series ws c p Hkeys Hin) as (fws & Hs & Hy & Hincl).
      exists (map population fws). unfold conn'. rewrite Hs. cbn [map fst snd].
      rewrite !map_map. cbn [fst snd].
      change (map (fun x => year x) fws) with (map year fws).
      change (map (fun x => population x) fws) with (map population fws).
      rewrite Hy. repeat split.
      - rewrite length_map, <- (length_map year), Hy. reflexivity.
      - apply Forall_map. apply Forall_forall. intros r Hr.
        rewrite Forall_forall in Hall. apply Hincl in Hr. apply Hall in Hr. lia. }
    unfold show_city_plot. rewrite (fresh_listing ws Hkeys : select_cities conn' = _).
    set (listing := ["Cape Coral"; "Fort Lauderdale"; "Hialeah"; "Jacksonville";
                     "Miami"; "Orlando"; "Port St. Lucie"; "St. Petersburg";
                     "Tallahassee"; "Tampa"]).
    assert (Hlisting : forall c, In c listing <-> In c (map fst cities)).
    { intros c. cbn. tauto. }
    destruct (existsb (String.eqb (strip l2)) listing) eqn:Hex; cbn [negb snd].
    - apply existsb_exists in Hex. destruct Hex as (c & Hin & Heq).
      apply String.eqb_eq in Heq. subst c. apply Hlisting in Hin.
      pose proof Hin as Hin'. apply in_map_iff in Hin'.
      destruct Hin' as ([c p] & Hc & Hcp). cbn [fst] in Hc. subst c.
      destruct (Hseries _ p Hcp) as (pops & -> & -> & Hlen & Hge).
      eexists _, (strip l2), p, pops. split; [rewrite !app_assoc; reflexivity |].
      split; [rewrite !existsb_app, listing_has_no_plot; reflexivity |].
      repeat split; try assumption. intros Hnot. contradiction.
    - destruct (Hseries "Cape Coral" 216000) as (pops & -> & -> & Hlen & Hge).
      { cbn. tauto. }
      eexists _, "Cape Coral", 216000, pops. split; [rewrite !app_assoc; reflexivity |].
      split; [rewrite !existsb_app, listing_has_no_plot; reflexivity |].
      repeat split; try assumption; [cbn; tauto |].
      intros Hin. exfalso. apply Hlisting in Hin.
      rewrite (proj2 (existsb_exists _ _)) in Hex; [discriminate |].
      exists (strip l2). split; [assumption | apply String.eqb_refl]. }
  destruct Hplot as (before & c & p & pops & Htrace & Hrest).
  exists (commit (commit (commit fs name []) name (insert_2023_data [])) name conn'),
         conn', before, c, p, pops.
  assert (Hmain : main rng seed random connects fs l1 l2 =
    (commit (commit (commit fs name []) name (insert_2023_data [])) name conn',
     Input "Enter your initials (e.g., WCM): " ::
     before ++ [Plot (String.append "Population Growth for " c)
                     (range 2023 21) (p :: pops)],
     None)).
  { unfold main, create_database. fold name. rewrite Hconn, Hnew, Hrun.
    destruct (show_city_plot conn' l2) as [conn'' trace]. cbn [snd] in Htrace.
    rewrite Htrace. reflexivity. }
  split; [| split; [| split; [| split; [| split]]]].
  - exact Hmain.
  - unfold script. rewrite Hmain. reflexivity.
  - apply commit_same.
  - intros n Hn. rewrite !commit_other by assumption. reflexivity.
  - unfold conn'. rewrite length_app, <- (length_map key ws), Hkeys. reflexivity.
  - exact Hrest.
Qed.

Lemma seeded_keys_after_default_run
      (rng : Type) (seed : Z -> rng) (random : rng -> float * rng)
      (conn conn' : store) (rng_seed : Z) :
  simulate_growth rng seed random default_rate_min default_rate_max
    (insert_2023_data conn) 2024 20 rng_seed = Ok conn' ->
  forall c, In c (map fst cities) -> has_key conn' c 2023 = true.
Proof.
  intros Hrun c Hc.
  pose proof (seed_rows_adds_keys cities conn c Hc) as Hk.
  rewrite <- insert_2023_data_seed_rows in Hk.
  apply has_key_iff in Hk. apply in_map_iff in Hk. destruct Hk as (r & Hkey & Hr).
  apply has_key_iff. rewrite <- Hkey. apply in_map.
  rewrite simulate_growth_walk in Hrun.
  destruct (rows_walk _ _ _ _ _ _ _) as [[g ws] |] eqn:Hw; [| discriminate].
  cbn [bind snd] in Hrun. injection Hrun as <-.
  apply rows_walk_ok in Hw. destruct Hw as [Hkeys _].
  apply in_apply_writes_kept; [assumption |].
  destruct (overwritten ws r) eqn:Hov; [| reflexivity].
  exfalso. apply overwritten_iff in Hov. rewrite Hkeys, Hkey in Hov.
  apply in_written_keys in Hov. destruct Hov as [_ Hy].
  apply in_range in Hy. lia.
Qed.

Lemma seeded_keys_survive_default_run
      (rng : Type) (seed : Z -> rng) (random : rng -> float * rng)
      (conn conn' : store) (rng_seed : Z) :
  simulate_growth rng seed random default_rate_min default_rate_max
    (insert_2023_data conn) 2024 20 rng_seed = Ok conn' ->
  insert_2023_data conn' = conn'.
Proof.
  intros Hrun. rewrite insert_2023_data_seed_rows. apply seed_rows_present.
  apply (seeded_keys_after_default_run _ _ _ _ _ _ Hrun).
Qed.

(** X16. Running the program again changes nothing: after a run that ended
    without an exception, a second run with the same initials ends without an
    exception too, leaves every database file as the first run left it and,
    for the same choice, produces the same trace.  The tables of the files
    the first run starts from have pairwise distinct keys, as the primary key
    ensures. *)
Theorem main_again_changes_nothing :
  forall (rng : Type) (seed : Z -> rng) (random : rng -> float * rng)
         (connects : string -> bool)
         (fs fs1 : files) (initials_line choice_line choice_line' : string)
         (trace1 : list event),
    (forall n conn, fs n = Some conn -> NoDup (map key conn)) ->
    main rng seed random connects fs initials_line choice_line =
      (fs1, trace1, None) ->
    exists fs2 trace2,
      main rng seed random connects fs1 initials_line choice_line' =
        (fs2, trace2, None) /\
      (forall n, fs2 n = fs1 n) /\
      (choice_line' = choice_line -> trace2 = trace1).
Proof.
  intros rng seed random connects fs fs1 l1 l2 l2' t1 Hkeys Hmain.
  unfold main in Hmain |- *. set (name := db_name (initials_or_default l1)) in *.
  assert (Hconn : connects name = true).
  { unfold create_database in Hmain. fold name in Hmain.
    destruct (connects name); [reflexivity | discriminate]. }
  assert (Hcreate : exists fsA conn0,
            create_database connects fs (initials_or_default l1) =
              Some (fsA, name, conn0) /\
            NoDup (map key conn0)).
  { unfold create_database. fold name. rewrite Hconn.
    destruct (fs name) as [conn0 |] eqn:Hf.
    - exists fs, conn0. split; [reflexivity | apply (Hkeys name); assumption].
    - exists (commit fs name []), []. split; [reflexivity | constructor]. }
  destruct Hcreate as (fsA & conn0 & Hcreate & Hnd0). rewrite Hcreate in Hmain.
  destruct (simulate_growth rng seed random default_rate_min default_rate_max
              (insert_2023_data conn0) 2024 20 42) as [conn2 | e] eqn:Hrun;
    [| discriminate].
  destruct (show_city_plot conn2 l2) as [c2 tr] eqn:Hshow.
  injection Hmain as <- <-.
  assert (Hseeded : insert_2023_data conn2 = conn2).
  { apply (seeded_keys_survive_default_run _ _ _ _ _ _ Hrun). }
  assert (Hrerun : simulate_growth rng seed random default_rate_min default_rate_max
                     conn2 2024 20 42 = Ok conn2).
  { apply (simulate_growth_rerun _ _ _ _ _ (insert_2023_data conn0)).
    - apply unique_keys_base. rewrite insert_2023_data_seed_rows.
      apply seed_rows_unique_keys. assumption.
    - intros H. apply in_range in H. lia.
    - assumption. }
  unfold create_database. fold name. rewrite Hconn, commit_same, Hseeded, Hrerun.
  destruct (show_city_plot conn2 l2') as [c2' tr'] eqn:Hshow'.
  eexists _, _. split; [reflexivity |]. split.
  - intros n. unfold commit. destruct (String.eqb n name); reflexivity.
  - intros ->. rewrite Hshow in Hshow'. injection Hshow' as _ <-. reflexivity.
Qed.

(** X17. When the database of the typed initials can be opened, then
    whatever else was read and however the call of [main] ended, that
    database holds afterwards a row of 2023 for each of the ten cities: the
    seeder commits before the simulator runs, and the simulator does not
    write the year 2023. *)
Theorem main_always_seeds :
  forall (rng : Type) (seed : Z -> rng) (random : rng -> float * rng)
         (connects : string -> bool)
         (fs : files) (initials_line choice_line : string),
    connects (db_name (initials_or_default initials_line)) = true ->
    exists conn,
      fst (fst (main rng seed random connects fs initials_line choice_line))
          (db_name (initials_or_default initials_line)) = Some conn /\
      forall c, In c (map fst cities) -> has_key conn c 2023 = true.
Proof.
  intros rng seed random connects fs l1 l2 Hconn. unfold main.
  set (name := db_name (initials_or_default l1)) in *.
  assert (Hcreate : exists fsA conn0,
            create_database connects fs (initials_or_default l1) =
              Some (fsA, name, conn0)).
  { unfold create_database. fold name. rewrite Hconn.
    destruct (fs name) as [conn0 |].
    - exists fs, conn0. reflexivity.
    - exists (commit fs name []), []. reflexivity. }
  destruct Hcreate as (fsA & conn0 & ->).
  destruct (simulate_growth rng seed random default_rate_min default_rate_max
              (insert_2023_data conn0) 2024 20 42) as [conn2 | e] eqn:Hrun.
  - destruct (show_city_plot conn2 l2) as [c2 tr]. cbn [fst].
    exists conn2. split; [apply commit_same |].
    apply (seeded_keys_after_default_run _ _ _ _ _ _ Hrun).
  - cbn [fst]. exists (insert_2023_data conn0). split; [apply commit_same |].
    intros c Hc. rewrite insert_2023_data_seed_rows.
    apply seed_rows_adds_keys. assumption.
Qed.

Lemma select_2023_app s1 s2 : select_2023 (s1 ++ s2) = select_2023 s1 ++ select_2023 s2.
Proof. unfold select_2023. rewrite filter_app, map_app. reflexivity. Qed.

(** X18. The call of [main] does not raise on a database that can be opened
    and holds sensible values: when the 2023 rows of the existing table, if
    there is one, hold values of magnitude at most [2^42], the run with the
    default rates returns without an exception, for every generator whose
    draws lie in [[0.0, 1.0)]. *)
Theorem main_does_not_raise :
  forall (rng : Type) (seed : Z -> rng) (random : rng -> float * rng)
         (connects : string -> bool),
    (forall g, unit_interval (fst (random g)) = true) ->
  forall (fs : files) (initials_line choice_line : string),
    connects (db_name (initials_or_default initials_line)) = true ->
    (forall conn c p,
       fs (db_name (initials_or_default initials_line)) = Some conn ->
       In (c, p) (select_2023 conn) -> Z.abs p <= 2 ^ 42) ->
    snd (main rng seed random connects fs initials_line choice_line) = None.
Proof.
  intros rng seed random connects Hunit fs l1 l2 Hconn Hvals. unfold main.
  set (name := db_name (initials_or_default l1)) in *.
  assert (Hcreate : exists fsA conn0,
            create_database connects fs (initials_or_default l1) =
              Some (fsA, name, conn0) /\
            forall c p, In (c, p) (select_2023 conn0) -> Z.abs p <= 2 ^ 42).
  { unfold create_database. fold name. rewrite Hconn.
    destruct (fs name) as [conn0 |] eqn:Hf.
    - exists fs, conn0. split; [reflexivity |]. intros c p. apply Hvals. reflexivity.
    - exists (commit fs name []), []. split; [reflexivity | intros c p []]. }
  destruct Hcreate as (fsA & conn0 & -> & Hb0).
  assert (Hyears : forall y, In y (range 2024 20) -> - 2 ^ 63 <= y < 2 ^ 63).
  { intros y Hy. apply in_range in Hy. lia. }
  assert (Hb1 : forall c p, In (c, p) (select_2023 (insert_2023_data conn0)) ->
                            Z.abs p <= 2 ^ 42).
  { intros c p Hin. rewrite insert_2023_data_seed_rows in Hin.
    destruct (seed_rows_appends cities conn0) as (added & Heq & Hadd).
    rewrite Heq, select_2023_app in Hin. apply in_app_or in Hin.
    destruct Hin as [Hin | Hin]; [apply (Hb0 c p Hin) |].
    unfold select_2023 in Hin. apply in_map_iff in Hin.
    destruct Hin as (r & [= <- <-] & Hr). apply filter_In in Hr.
    destruct (Hadd r (proj1 Hr)) as (Hc & _ & _).
    apply cities_bounded in Hc.
    assert (2 ^ 20 <= 2 ^ 42) by (apply Z.pow_le_mono_r; lia). lia. }
  destruct (rows_walk_succeeds rng random Hunit _ _ default_rates_small
              (range 2024 20) Hyears 42 (select_2023 (insert_2023_data conn0)) (seed 42))
    as (g & ws & Hw); [lia | rewrite range_length; lia | exact Hb1 |].
  rewrite simulate_growth_walk, Hw. cbn [bind snd].
  destruct (show_city_plot _ l2) as [c2 tr]. reflexivity.
Qed.

(** * Instances *)

Lemma seeder_keeps_keys_unique_witness :
  NoDup (map key (insert_2023_data [Row "Miami" 2023 1; Row "Miami" 2024 2])).
Proof.
  apply (seeder_keeps_keys_unique [Row "Miami" 2023 1; Row "Miami" 2024 2]).
  repeat constructor; cbn; intuition discriminate.
Defined.

Lemma simulator_keeps_keys_unique_witness :
  NoDup (map key [Row "Miami" 2023 5; Row "Miami" 2024 5]).
Proof.
  apply (simulator_keeps_keys_unique nat Cycle.seed Cycle.random zero zero
           [Row "Miami" 2023 5; Row "Miami" 2024 9]
           [Row "Miami" 2023 5; Row "Miami" 2024 5] 2024 1 42).
  - repeat constructor; cbn; intuition discriminate.
  - vm_compute. reflexivity.
Defined.

Lemma simulator_leaves_other_keys_witness :
  In (Row "Tampa" 2030 7)
     [Row "Miami" 2023 5; Row "Tampa" 2030 7; Row "Miami" 2024 5] <->
  In (Row "Tampa" 2030 7) [Row "Miami" 2023 5; Row "Tampa" 2030 7].
Proof.
  apply (simulator_leaves_other_keys nat Cycle.seed Cycle.random zero zero
           [Row "Miami" 2023 5; Row "Tampa" 2030 7]
           [Row "Miami" 2023 5; Row "Tampa" 2030 7; Row "Miami" 2024 5]
           2024 1 42 (Row "Tampa" 2030 7)).
  - vm_compute. reflexivity.
  - vm_compute. intros [H | []]. discriminate.
Defined.

Lemma nothing_to_simulate_witness :
  simulate_growth nat Cycle.seed Cycle.random default_rate_min default_rate_max
    [Row "Miami" 2023 5] 2024 (-3) 42 = Ok [Row "Miami" 2023 5].
Proof.
  apply (nothing_to_simulate nat Cycle.seed Cycle.random
           default_rate_min default_rate_max [Row "Miami" 2023 5] 2024 (-3) 42).
  left. lia.
Defined.

Lemma simulation_rerun_is_idempotent_witness :
  simulate_growth nat Cycle.seed Cycle.random default_rate_min default_rate_max
    [Row "Miami" 2023 451000; Row "Miami" 2024 455510; Row "Miami" 2025 464620]
    2024 2 42
  = Ok [Row "Miami" 2023 451000; Row "Miami" 2024 455510; Row "Miami" 2025 464620].
Proof.
  apply (simulation_rerun_is_idempotent nat Cycle.seed Cycle.random
           default_rate_min default_rate_max [Row "Miami" 2023 451000]
           [Row "Miami" 2023 451000; Row "Miami" 2024 455510; Row "Miami" 2025 464620]
           2024 2 42).
  - repeat constructor. intros [].
  - vm_compute. intros [H | [H | []]]; discriminate.
  - vm_compute. reflexivity.
Defined.

Lemma renderer_plots_a_city_of_the_store_witness :
  exists c before,
    snd (show_city_plot [Row "Tampa" 2023 5; Row "Miami" 2023 3] "Tampa ") =
      before ++ [Plot (String.append "Population Growth for " c)
                      (map fst (select_series [Row "Tampa" 2023 5; Row "Miami" 2023 3] c))
                      (map snd (select_series [Row "Tampa" 2023 5; Row "Miami" 2023 3] c))] /\
    existsb is_plot before = false /\
    In c (map city [Row "Tampa" 2023 5; Row "Miami" 2023 3]) /\
    select_series [Row "Tampa" 2023 5; Row "Miami" 2023 3] c <> [] /\
    (In (strip "Tampa ") (map city [Row "Tampa" 2023 5; Row "Miami" 2023 3]) ->
     c = strip "Tampa ") /\
    (~ In (strip "Tampa ") (map city [Row "Tampa" 2023 5; Row "Miami" 2023 3]) ->
     hd_error (select_cities [Row "Tampa" 2023 5; Row "Miami" 2023 3]) = Some c).
Proof.
  apply (renderer_plots_a_city_of_the_store
           [Row "Tampa" 2023 5; Row "Miami" 2023 3] "Tampa ").
  discriminate.
Defined.

Lemma non_finite_rate_raises_witness :
  exists e,
    simulate_growth nat Cycle.seed Cycle.random default_rate_min (S754_infinity false)
      [Row "Miami" 2023 451000] 2024 20 42 = Raise e.
Proof.
  apply (non_finite_rate_raises nat Cycle.seed Cycle.random cycle_random_unit
           default_rate_min (S754_infinity false) [Row "Miami" 2023 451000] 2024 20 42).
  - right. reflexivity.
  - vm_compute. discriminate.
  - lia.
Defined.

Lemma zero_is_floored_to_one_witness : grow 0 default_rate_min = Ok 1.
Proof.
  apply (zero_is_floored_to_one default_rate_min).
  apply (mag_le_mono default_rate_min (-1)); [apply default_rates_small | lia].
Defined.


Lemma db_name_injective_witness : "WCM" = "WCM".
Proof. apply (db_name_injective "WCM" "WCM"). reflexivity. Defined.

Lemma main_on_a_new_database_witness :
  exists fs' conn' before c p pops,
    main nat Cycle.seed Cycle.random (fun _ => true) (fun _ => None) "  " " Miami" =
      (fs',
       Input "Enter your initials (e.g., WCM): " ::
       before ++ [Plot (String.append "Population Growth for " c)
                       (range 2023 21) (p :: pops)],
       None) /\
    script nat Cycle.seed Cycle.random (fun _ => true) (fun _ => None) "  " " Miami" =
      (fs',
       Input "Enter your initials (e.g., WCM): " ::
       before ++ [Plot (String.append "Population Growth for " c)
                       (range 2023 21) (p :: pops)],
       Some NameError) /\
    fs' (db_name (initials_or_default "  ")) = Some conn' /\
    (forall n, n <> db_name (initials_or_default "  ") -> fs' n = None) /\
    List.length conn' = 210%nat /\
    existsb is_plot before = false /\
    In (c, p) cities /\
    List.length pops = 20%nat /\
    Forall (fun v => 1 <= v) pops /\
    (In (strip " Miami") (map fst cities) -> c = strip " Miami") /\
    (~ In (strip " Miami") (map fst cities) -> c = "Cape Coral").
Proof.
  apply (main_on_a_new_database nat Cycle.seed Cycle.random (fun _ => true)
           cycle_random_unit (fun _ => None) "  " " Miami").
  - reflexivity.
  - reflexivity.
Defined.

Lemma main_again_changes_nothing_witness :
  exists fs2 trace2,
    main nat Cycle.seed Cycle.random (fun _ => true)
      (fst (fst (main nat Cycle.seed Cycle.random (fun _ => true) (fun _ => None)
                   "WCM" "Tampa")))
      "WCM" "Tampa" = (fs2, trace2, None) /\
    (forall n,
       fs2 n = fst (fst (main nat Cycle.seed Cycle.random (fun _ => true)
                           (fun _ => None) "WCM" "Tampa")) n) /\
    ("Tampa" = "Tampa" ->
     trace2 = snd (fst (main nat Cycle.seed Cycle.random (fun _ => true)
                          (fun _ => None) "WCM" "Tampa"))).
Proof.
  apply (main_again_changes_nothing nat Cycle.seed Cycle.random (fun _ => true)
           (fun _ => None)
           (fst (fst (main nat Cycle.seed Cycle.random (fun _ => true)
                        (fun _ => None) "WCM" "Tampa")))
           "WCM" "Tampa" "Tampa"
           (snd (fst (main nat Cycle.seed Cycle.random (fun _ => true)
                        (fun _ => None) "WCM" "Tampa")))).
  - intros n conn H. discriminate H.
  - vm_compute. reflexivity.
Defined.

Lemma main_always_seeds_witness :
  exists conn,
    fst (fst (main nat Cycle.seed Cycle.random (fun _ => true)
                (fun n => if String.eqb n "population_WCM.db"
                          then Some [Row "Miami" 2023 9223372036854775807]
                          else None)
                " WCM " "Miami"))
        (db_name (initials_or_default " WCM ")) = Some conn /\
    forall c, In c (map fst cities) -> has_key conn c 2023 = true.
Proof.
  apply (main_always_seeds nat Cycle.seed Cycle.random (fun _ => true)
           (fun n => if String.eqb n "population_WCM.db"
                     then Some [Row "Miami" 2023 9223372036854775807]
                     else None)
           " WCM " "Miami").
  reflexivity.
Defined.

Lemma main_does_not_raise_witness :
  snd (main nat Cycle.seed Cycle.random (fun _ => true)
         (fun n => if String.eqb n "population_CM.db"
                   then Some [Row "Miami" 2023 7; Row "Key West" 2023 26000]
                   else None)
         "" "Key West") = None.
Proof.
  apply (main_does_not_raise nat Cycle.seed Cycle.random (fun _ => true)
           cycle_random_unit).
  - reflexivity.
  - intros conn c p H Hin. vm_compute in H. injection H as <-.
    destruct Hin as [[= <- <-] | [[= <- <-] | []]];
      change (2 ^ 42) with 4398046511104; cbn; lia.
Defined.
